(** * Layout generator: geometry, constraint evaluator, placement search, scorer

    A shallow embedding of [layout_generator.py].

    Conventions of the embedding:
    - Python numbers (the [int] constants and the [float] coordinates) are
      real numbers; IEEE rounding is not modelled.  Comparisons are boolean
      functions on [R] obtained from the decision procedures of the
      Standard Library.
    - A building is the dict [{'type','w','h','x','y'}]; the plaza is a dict
      with the four geometric keys only.  The geometric keys form the record
      [rect]; a [building] is a [rect] with a type tag, and coerces to it.
    - The module [random] is a stream of unit draws (the values returned by
      [random.random()]) together with a cursor into it; a function that
      draws takes the cursor and returns the advanced one.
    - [None] is [None]; a raised [ValueError] is the [Raise] outcome of
      [result].
    - Of [visualize_layout] only the loop over the buildings is embedded:
      its counters, and the patches and labels it hands to matplotlib, kept
      as a list.  The figure itself and the number formatting of the info
      box are not.
    - [list.sort] is the stable sort of its documentation; [print] is
      omitted. *)

From Stdlib Require String DecimalString DecimalNat.
From Stdlib Require Import Reals ZArith Lra Lia List Bool Arith Permutation
  Sorted.
Import ListNotations.
Import String.StringSyntax.
Open Scope string_scope.
Open Scope R_scope.

(** ** Python primitives *)

Definition Rltb (a b : R) : bool := if Rlt_dec a b then true else false.
Definition Rleb (a b : R) : bool := if Rle_dec a b then true else false.

(** [max(a, b, c)] *)
Definition max3 (a b c : R) : R := Rmax (Rmax a b) c.

(** [range(a, b)] *)
Definition range (a b : nat) : list nat := seq a (b - a).

(** [sum(iterable)]: left to right, from 0. *)
Definition py_sum (l : list R) : R := fold_left Rplus l 0.

Inductive exn : Type := ValueError.

Inductive result (A : Type) : Type :=
| Ok (a : A)
| Raise (e : exn).
Arguments Ok {A} a.
Arguments Raise {A} e.

Definition bind {A B : Type} (m : result A) (k : A -> result B) : result B :=
  match m with
  | Ok a => k a
  | Raise e => Raise e
  end.

Notation "x <- m ;; k" := (bind m (fun x => k))
  (at level 61, m at next level, right associativity).

(** [min(iterable)] and [max(iterable)]: [ValueError] on an empty argument,
    otherwise the first element updated by each later one that beats it. *)
Definition py_min (l : list R) : result R :=
  match l with
  | [] => Raise ValueError
  | v :: rest => Ok (fold_left (fun m u => if Rltb u m then u else m) rest v)
  end.

Definition py_max (l : list R) : result R :=
  match l with
  | [] => Raise ValueError
  | v :: rest => Ok (fold_left (fun m u => if Rltb m u then u else m) rest v)
  end.

(** ** Constants *)

Definition SITE_WIDTH : R := 200.
Definition SITE_HEIGHT : R := 140.

Definition TOWER_A_SIZE : R * R := (30, 20).
Definition TOWER_B_SIZE : R * R := (20, 20).

Definition BOUNDARY_BUFFER : R := 10.
Definition MIN_BUILDING_DISTANCE : R := 15.
Definition NEIGHBOR_DISTANCE : R := 60.

Definition PLAZA_SIZE : R := 40.
Definition PLAZA_X : R := (SITE_WIDTH - PLAZA_SIZE) / 2.
Definition PLAZA_Y : R := (SITE_HEIGHT - PLAZA_SIZE) / 2.

(** ** Data model *)

Inductive btype : Type := A | B.

Definition btype_eqb (s t : btype) : bool :=
  match s, t with
  | A, A | B, B => true
  | _, _ => false
  end.

Record rect : Type := mkRect { r_x : R; r_y : R; r_w : R; r_h : R }.

Record building : Type := mkBuilding { b_type : btype; b_rect :> rect }.

Definition layout : Type := list building.

(** ** Geometry helper functions *)

Definition rectangles_overlap (r1 r2 : rect) : bool :=
  negb (Rleb (r_x r1 + r_w r1) (r_x r2) ||
        Rleb (r_x r2 + r_w r2) (r_x r1) ||
        Rleb (r_y r1 + r_h r1) (r_y r2) ||
        Rleb (r_y r2 + r_h r2) (r_y r1)).

Definition rectangle_distance (r1 r2 : rect) : R :=
  let dx := max3 (r_x r2 - (r_x r1 + r_w r1)) (r_x r1 - (r_x r2 + r_w r2)) 0 in
  let dy := max3 (r_y r2 - (r_y r1 + r_h r1)) (r_y r1 - (r_y r2 + r_h r2)) 0 in
  sqrt (dx * dx + dy * dy).

(** ** Constraint checking function *)

Definition plaza : rect :=
  {| r_x := PLAZA_X; r_y := PLAZA_Y; r_w := PLAZA_SIZE; r_h := PLAZA_SIZE |}.

(** The test of the inner loop body at indices [i], [j].  Both indices come
    from [range(len(buildings))], so the lookups succeed. *)
Definition too_close (buildings : layout) (i j : nat) : bool :=
  match nth_error buildings i, nth_error buildings j with
  | Some bi, Some bj => Rltb (rectangle_distance bi bj) MIN_BUILDING_DISTANCE
  | _, _ => false
  end.

Definition check_partial_constraints (buildings : layout) : bool :=
  if existsb (fun b : building => rectangles_overlap b plaza) buildings
  then false
  else if existsb
            (fun i => existsb (too_close buildings i)
                              (range (i + 1) (length buildings)))
            (range 0 (length buildings))
  then false
  else true.

(** ** Layout generator (search algorithm) *)

Section Search.

(** The unit draws of [random.random()], in the order they are made. *)
Variable draws : nat -> R.

(** Cursor into [draws]: the number of draws made so far. *)
Definition rng : Type := nat.

(** [random.uniform(a, b)] is [a + (b - a) * random()]. *)
Definition uniform (a b : R) (s : rng) : R * rng :=
  (a + (b - a) * draws s, S s).

Definition random_building (t : btype) (s : rng) : building * rng :=
  let '(w, h) := if btype_eqb t A then TOWER_A_SIZE else TOWER_B_SIZE in
  let '(x, s1) :=
    uniform BOUNDARY_BUFFER (SITE_WIDTH - w - BOUNDARY_BUFFER) s in
  let '(y, s2) :=
    uniform BOUNDARY_BUFFER (SITE_HEIGHT - h - BOUNDARY_BUFFER) s1 in
  ({| b_type := t; b_rect := {| r_x := x; r_y := y; r_w := w; r_h := h |} |},
   s2).

(** The inner loop [for _ in range(max_attempts)]: the first candidate
    that keeps the layout feasible, or [None] when [placed] stays false. *)
Fixpoint try_place (t : btype) (buildings : layout) (attempts : nat)
    (s : rng) : option building * rng :=
  match attempts with
  | O => (None, s)
  | S attempts' =>
      let '(candidate, s') := random_building t s in
      if check_partial_constraints (buildings ++ [candidate])
      then (Some candidate, s')
      else try_place t buildings attempts' s'
  end.

(** The outer loop over the work list. *)
Fixpoint place_all (items : list btype) (buildings : layout)
    (max_attempts : nat) (s : rng) : option layout * rng :=
  match items with
  | [] => (Some buildings, s)
  | t :: items' =>
      match try_place t buildings max_attempts s with
      | (Some candidate, s') =>
          place_all items' (buildings ++ [candidate]) max_attempts s'
      | (None, s') => (None, s')
      end
  end.

Definition is_type (t : btype) (b : building) : bool :=
  btype_eqb (b_type b) t.

(** The final loop: every 'A' has some 'B' within [NEIGHBOR_DISTANCE]. *)
Definition neighbor_check (buildings : layout) : bool :=
  forallb
    (fun a : building =>
       existsb
         (fun b : building =>
            Rleb (rectangle_distance a b) NEIGHBOR_DISTANCE)
         (filter (is_type B) buildings))
    (filter (is_type A) buildings).

(** The counts and the attempt cap are Python integers: [['A'] * n] and
    [range(n)] are empty for [n <= 0]. *)
Definition work_list (num_a num_b : Z) : list btype :=
  repeat A (Z.to_nat num_a) ++ repeat B (Z.to_nat num_b).

Definition generate_layout (num_a num_b max_attempts : Z) (s : rng)
    : option layout * rng :=
  match place_all (work_list num_a num_b) [] (Z.to_nat max_attempts) s with
  | (Some buildings, s') =>
      if neighbor_check buildings then (Some buildings, s') else (None, s')
  | (None, s') => (None, s')
  end.

End Search.

(** ** Scoring function *)

(** One pass of the loop body: the reward of a Primary rectangle whose
    nearest Secondary rectangle is at distance [min_dist]. *)
Definition proximity_reward (min_dist : R) : R :=
  Rmax 0 (NEIGHBOR_DISTANCE - min_dist).

Fixpoint proximity_loop (tower_a tower_b : layout) (proximity_score : R)
    : result R :=
  match tower_a with
  | [] => Ok proximity_score
  | a :: tower_a' =>
      min_dist <- py_min (map (fun b : building => rectangle_distance a b)
                              tower_b) ;;
      proximity_loop tower_a' tower_b
                     (proximity_score + proximity_reward min_dist)
  end.

Definition compute_score (buildings : layout) : result R :=
  let total_area :=
    py_sum (map (fun b : building => r_w b * r_h b) buildings) in
  let tower_a := filter (is_type A) buildings in
  let tower_b := filter (is_type B) buildings in
  proximity_score <- proximity_loop tower_a tower_b 0 ;;
  let xs := map (fun b : building => r_x b) buildings in
  let ys := map (fun b : building => r_y b) buildings in
  max_x <- py_max xs ;;
  min_x <- py_min xs ;;
  max_y <- py_max ys ;;
  min_y <- py_min ys ;;
  let spread_penalty := (max_x - min_x) + (max_y - min_y) in
  Ok (20 * INR (length buildings) +
      0.03 * total_area +
      3.0 * proximity_score -
      0.15 * spread_penalty).

(** ** Visualization: the bookkeeping of the drawing loop *)

(** What the loop of [visualize_layout] adds to the axes for one building:
    the rectangle patch with its colour, and the label with its anchor. *)
Record drawn : Type := mkDrawn {
  d_rect : rect;
  d_color : String.string;
  d_label : String.string;
  d_text_x : R;
  d_text_y : R
}.

(** The variables the loop updates, and the artists added so far. *)
Record vis : Type := mkVis {
  a_count : nat;
  b_count : nat;
  built_area : R;
  artists : list drawn
}.

(** [f"{n}"] for a non-negative integer. *)
Definition decimal (n : nat) : String.string :=
  DecimalString.NilEmpty.string_of_uint (Nat.to_uint n).

Definition draw_building (st : vis) (b : building) : vis :=
  let area := built_area st + r_w b * r_h b in
  let tx := r_x b + r_w b / 2 in
  let ty := r_y b + r_h b / 2 in
  if btype_eqb (b_type b) A then
    {| a_count := a_count st + 1;
       b_count := b_count st;
       built_area := area;
       artists := artists st ++
         [mkDrawn b "#ff6b6b"
                  (String.append "A" (decimal (a_count st + 1))) tx ty] |}
  else
    {| a_count := a_count st;
       b_count := b_count st + 1;
       built_area := area;
       artists := artists st ++
         [mkDrawn b "#4d79ff"
                  (String.append "B" (decimal (b_count st + 1))) tx ty] |}.

Definition visualize_loop (buildings : layout) : vis :=
  fold_left draw_building buildings
            {| a_count := 0; b_count := 0; built_area := 0; artists := [] |}.

(** ** Generate and select best layouts *)

Definition scored : Type := (R * layout)%type.

(** [if layout:] fails for [None] and for the empty list. *)
Definition truthy (r : option layout) : bool :=
  match r with
  | Some (_ :: _) => true
  | _ => false
  end.

(** [layouts.sort(reverse=True, key=lambda x: x[0])]: the stable sort by
    decreasing score, in which entries of equal score keep their order. *)
Fixpoint insert_desc (e : scored) (l : list scored) : list scored :=
  match l with
  | [] => [e]
  | y :: ys => if Rltb (fst e) (fst y) then y :: insert_desc e ys
               else e :: y :: ys
  end.

Definition sort_desc (l : list scored) : list scored :=
  fold_right insert_desc [] l.

Section Driver.

Variable draws : nat -> R.

(** The loop [for _ in range(700)], for any number of trials. *)
Fixpoint collect_layouts (trials : nat) (layouts : list scored) (s : rng)
    : result (list scored) * rng :=
  match trials with
  | O => (Ok layouts, s)
  | S trials' =>
      let '(r, s') := generate_layout draws 2 3 2500 s in
      match r with
      | Some l =>
          if truthy r
          then match compute_score l with
               | Ok score =>
                   collect_layouts trials' (layouts ++ [(score, l)]) s'
               | Raise e => (Raise e, s')
               end
          else collect_layouts trials' layouts s'
      | None => collect_layouts trials' layouts s'
      end
  end.

(** [top_layouts]: the three best of the layouts found. *)
Definition top_layouts (s : rng) : result (list scored) * rng :=
  match collect_layouts 700 [] s with
  | (Ok layouts, s') => (Ok (firstn 3 (sort_desc layouts)), s')
  | (Raise e, s') => (Raise e, s')
  end.

End Driver.

(** ** Specification-side vocabulary *)

(** The closed regions of two rectangles meet: they overlap, or they touch
    along an edge or at a corner. *)
Definition share_boundary (r1 r2 : rect) : Prop :=
  r_x r2 <= r_x r1 + r_w r1 /\ r_x r1 <= r_x r2 + r_w r2 /\
  r_y r2 <= r_y r1 + r_h r1 /\ r_y r1 <= r_y r2 + r_h r2.

(** No rectangle of the layout overlaps the Reserved Zone. *)
Definition zone_clear (l : layout) : Prop :=
  forall b : building, In b l -> rectangles_overlap b plaza = false.

(** Every unordered pair of rectangles (two distinct positions of the
    sequence) is at least [MIN_BUILDING_DISTANCE] apart. *)
Definition separated (l : layout) : Prop :=
  forall (i j : nat) (bi bj : building),
    (i < j)%nat -> nth_error l i = Some bi -> nth_error l j = Some bj ->
    MIN_BUILDING_DISTANCE <= rectangle_distance bi bj.

(** Some rectangle of the layout overlaps the Reserved Zone. *)
Definition zone_violation (l : layout) : Prop :=
  exists b : building, In b l /\ rectangles_overlap b plaza = true.

(** Some unordered pair of rectangles is closer than
    [MIN_BUILDING_DISTANCE]. *)
Definition distance_violation (l : layout) : Prop :=
  exists (i j : nat) (bi bj : building),
    (i < j)%nat /\ nth_error l i = Some bi /\ nth_error l j = Some bj /\
    rectangle_distance bi bj < MIN_BUILDING_DISTANCE.

(** Every Primary rectangle has a Secondary one within [NEIGHBOR_DISTANCE]. *)
Definition neighbor_rule (l : layout) : Prop :=
  forall a : building, In a l -> b_type a = A ->
    exists b : building,
      In b l /\ b_type b = B /\ rectangle_distance a b <= NEIGHBOR_DISTANCE.

(** The rectangle keeps the boundary buffer on the four sides of the site. *)
Definition inside_site (r : rect) : Prop :=
  BOUNDARY_BUFFER <= r_x r /\ r_x r + r_w r <= SITE_WIDTH - BOUNDARY_BUFFER /\
  BOUNDARY_BUFFER <= r_y r /\ r_y r + r_h r <= SITE_HEIGHT - BOUNDARY_BUFFER.

(** Every value of the stream is a possible result of [random.random()]
    (the closed unit interval, to cover a draw rounded up to 1). *)
Definition unit_draws (draws : nat -> R) : Prop :=
  forall n : nat, 0 <= draws n <= 1.

(** The score as the specification words it. *)
Definition sum_of (l : list R) : R := fold_right Rplus 0 l.

Definition least_of (l : list R) : R :=
  match l with
  | [] => 0
  | v :: rest => fold_right Rmin v rest
  end.

Definition greatest_of (l : list R) : R :=
  match l with
  | [] => 0
  | v :: rest => fold_right Rmax v rest
  end.

Definition primaries (l : layout) : layout :=
  filter (fun b => btype_eqb (b_type b) A) l.

Definition secondaries (l : layout) : layout :=
  filter (fun b => btype_eqb (b_type b) B) l.

Definition nearest_secondary_distance (a : building) (l : layout) : R :=
  least_of (map (fun b : building => rectangle_distance a b) (secondaries l)).

Definition total_area_spec (l : layout) : R :=
  sum_of (map (fun b : building => r_w b * r_h b) l).

Definition proximity_score_spec (l : layout) : R :=
  sum_of (map (fun a => Rmax 0 (NEIGHBOR_DISTANCE -
                                nearest_secondary_distance a l))
              (primaries l)).

Definition spread_penalty_spec (l : layout) : R :=
  (greatest_of (map (fun b : building => r_x b) l) -
   least_of (map (fun b : building => r_x b) l)) +
  (greatest_of (map (fun b : building => r_y b) l) -
   least_of (map (fun b : building => r_y b) l)).

Definition score_spec (l : layout) : R :=
  20 * INR (length l) + 0.03 * total_area_spec l +
  3.0 * proximity_score_spec l - 0.15 * spread_penalty_spec l.

(** Some point lies strictly inside both rectangles. *)
Definition interiors_meet (r1 r2 : rect) : Prop :=
  exists px py : R,
    (r_x r1 < px < r_x r1 + r_w r1 /\ r_y r1 < py < r_y r1 + r_h r1) /\
    (r_x r2 < px < r_x r2 + r_w r2 /\ r_y r2 < py < r_y r2 + r_h r2).

(** The fixed size of a kind of tower. *)
Definition size_of (t : btype) : R * R :=
  match t with
  | A => TOWER_A_SIZE
  | B => TOWER_B_SIZE
  end.

Definition well_sized (b : building) : Prop :=
  (r_w b, r_h b) = size_of (b_type b).

(** The scores of a list of entries do not increase along it. *)
Definition descending (l : list scored) : Prop :=
  forall (i j : nat) (ei ej : scored),
    (i <= j)%nat -> nth_error l i = Some ei -> nth_error l j = Some ej ->
    fst ej <= fst ei.

(** The candidates that [generate_layout] tries first: one for each item of
    the work list, each from the next two draws. *)
Fixpoint first_candidates (draws : nat -> R) (items : list btype) (s : rng)
    : layout :=
  match items with
  | [] => []
  | t :: items' =>
      fst (random_building draws t s)
      :: first_candidates draws items' (S (S s))
  end.

(** ** Sample inputs *)

(** A Primary tower in the lower-left corner of the legal interior and
    Secondary towers on the same row, to its right. *)
Definition sample_a : building := mkBuilding A (mkRect 10 10 30 20).
Definition sample_b : building := mkBuilding B (mkRect 90 10 20 20).
Definition sample_b_at (x0 : R) : building := mkBuilding B (mkRect x0 10 20 20).

(** Draws that make [random_building] produce [sample_a], then [sample_b]. *)
Definition sample_draws : nat -> R :=
  fun n => match n with 2%nat => 1 / 2 | _ => 0 end.

(** Two A and three B towers that fit the site: four on the bottom row,
    the last one in the top-left corner; and the draws that produce them. *)
Definition row_a1 : building := mkBuilding A (mkRect 10 10 30 20).
Definition row_a2 : building := mkBuilding A (mkRect 55 10 30 20).
Definition row_b1 : building := mkBuilding B (mkRect 100 10 20 20).
Definition row_b2 : building := mkBuilding B (mkRect 135 10 20 20).
Definition top_b3 : building := mkBuilding B (mkRect 10 100 20 20).

Definition row_draws : nat -> R :=
  fun n =>
    match n with
    | 2%nat => 3 / 10
    | 4%nat => 9 / 16
    | 6%nat => 25 / 32
    | 9%nat => 9 / 10
    | _ => 0
    end.

(** ** Boolean comparisons *)

Lemma Rltb_true_iff (a b : R) : Rltb a b = true <-> a < b.
Proof. unfold Rltb. destruct (Rlt_dec a b); split; intros; auto; discriminate. Qed.

Lemma Rltb_false_iff (a b : R) : Rltb a b = false <-> b <= a.
Proof.
  unfold Rltb. destruct (Rlt_dec a b); split; intros; try discriminate;
    try reflexivity; lra.
Qed.

Lemma Rleb_true_iff (a b : R) : Rleb a b = true <-> a <= b.
Proof. unfold Rleb. destruct (Rle_dec a b); split; intros; auto; discriminate. Qed.

Lemma Rleb_false_iff (a b : R) : Rleb a b = false <-> b < a.
Proof.
  unfold Rleb. destruct (Rle_dec a b); split; intros; try discriminate;
    try reflexivity; lra.
Qed.

(** ** Geometry *)

Lemma rectangles_overlap_true_iff (r1 r2 : rect) :
  rectangles_overlap r1 r2 = true <->
  r_x r2 < r_x r1 + r_w r1 /\ r_x r1 < r_x r2 + r_w r2 /\
  r_y r2 < r_y r1 + r_h r1 /\ r_y r1 < r_y r2 + r_h r2.
Proof.
  unfold rectangles_overlap.
  rewrite negb_true_iff, !orb_false_iff, !Rleb_false_iff. tauto.
Qed.

Lemma rectangles_overlap_false_iff (r1 r2 : rect) :
  rectangles_overlap r1 r2 = false <->
  r_x r1 + r_w r1 <= r_x r2 \/ r_x r2 + r_w r2 <= r_x r1 \/
  r_y r1 + r_h r1 <= r_y r2 \/ r_y r2 + r_h r2 <= r_y r1.
Proof.
  unfold rectangles_overlap.
  rewrite negb_false_iff, !orb_true_iff, !Rleb_true_iff. tauto.
Qed.

Lemma max3_nonneg (a b : R) : 0 <= max3 a b 0.
Proof. unfold max3. apply Rmax_r. Qed.

Lemma max3_swap (a b c : R) : max3 a b c = max3 b a c.
Proof. unfold max3. now rewrite (Rmax_comm a b). Qed.

Lemma max3_zero (a b : R) : a <= 0 -> b <= 0 -> max3 a b 0 = 0.
Proof.
  intros Ha Hb. unfold max3. apply Rmax_right. now apply Rmax_lub.
Qed.

Lemma max3_zero_inv (a b : R) : max3 a b 0 = 0 -> a <= 0 /\ b <= 0.
Proof.
  unfold max3. intros H.
  pose proof (Rmax_l (Rmax a b) 0) as H1. rewrite H in H1.
  pose proof (Rmax_l a b). pose proof (Rmax_r a b). lra.
Qed.

Lemma max3_left (a b : R) : 0 <= a -> b <= 0 -> max3 a b 0 = a.
Proof.
  intros Ha Hb. unfold max3.
  rewrite (Rmax_left a b) by lra. now apply Rmax_left.
Qed.

Lemma rectangle_distance_nonneg (r1 r2 : rect) : 0 <= rectangle_distance r1 r2.
Proof. unfold rectangle_distance. apply sqrt_pos. Qed.

Lemma rectangle_distance_sym (r1 r2 : rect) :
  rectangle_distance r1 r2 = rectangle_distance r2 r1.
Proof.
  unfold rectangle_distance.
  now rewrite (max3_swap (r_x r2 - _)), (max3_swap (r_y r2 - _)).
Qed.

Lemma rectangle_distance_zero_iff (r1 r2 : rect) :
  rectangle_distance r1 r2 = 0 <-> share_boundary r1 r2.
Proof.
  unfold rectangle_distance, share_boundary. cbv zeta.
  set (dx := max3 _ _ 0). set (dy := max3 (r_y r2 - _) _ 0).
  split.
  - intros H. apply sqrt_eq_0 in H; [| nra].
    assert (Hx : dx = 0) by nra. assert (Hy : dy = 0) by nra.
    apply max3_zero_inv in Hx, Hy. lra.
  - intros (H1 & H2 & H3 & H4).
    assert (Hx : dx = 0) by (apply max3_zero; lra).
    assert (Hy : dy = 0) by (apply max3_zero; lra).
    rewrite Hx, Hy, Rmult_0_l, Rplus_0_l. apply sqrt_0.
Qed.

Lemma rectangles_overlap_share_boundary (r1 r2 : rect) :
  rectangles_overlap r1 r2 = true -> share_boundary r1 r2.
Proof.
  rewrite rectangles_overlap_true_iff. unfold share_boundary. lra.
Qed.

(** Two rectangles side by side, the second to the right of the first. *)
Lemma rectangle_distance_x_gap (r1 r2 : rect) :
  r_x r1 + r_w r1 <= r_x r2 -> r_x r1 <= r_x r2 + r_w r2 ->
  r_y r2 <= r_y r1 + r_h r1 -> r_y r1 <= r_y r2 + r_h r2 ->
  rectangle_distance r1 r2 = r_x r2 - (r_x r1 + r_w r1).
Proof.
  intros H1 H2 H3 H4. unfold rectangle_distance. cbv zeta.
  rewrite max3_left by lra. rewrite max3_zero by lra.
  rewrite Rmult_0_l, Rplus_0_r. apply sqrt_square. lra.
Qed.

(** ** Constraint evaluator *)

Lemma in_range (a b k : nat) : In k (range a b) <-> (a <= k < b)%nat.
Proof. unfold range. rewrite in_seq. lia. Qed.

Lemma too_close_true_iff (l : layout) (i j : nat) :
  too_close l i j = true <->
  exists bi bj : building,
    nth_error l i = Some bi /\ nth_error l j = Some bj /\
    rectangle_distance bi bj < MIN_BUILDING_DISTANCE.
Proof.
  unfold too_close. split.
  - destruct (nth_error l i) as [bi |]; [| discriminate].
    destruct (nth_error l j) as [bj |]; [| discriminate].
    intros H. apply Rltb_true_iff in H. now exists bi, bj.
  - intros (bi & bj & -> & -> & H). now apply Rltb_true_iff.
Qed.

Lemma zone_loop_true_iff (l : layout) :
  existsb (fun b : building => rectangles_overlap b plaza) l = true <->
  zone_violation l.
Proof. unfold zone_violation. apply existsb_exists. Qed.

Lemma pair_loop_true_iff (l : layout) :
  existsb (fun i => existsb (too_close l i) (range (i + 1) (length l)))
          (range 0 (length l)) = true <->
  distance_violation l.
Proof.
  unfold distance_violation. rewrite existsb_exists. split.
  - intros (i & Hi & H). apply existsb_exists in H as (j & Hj & H).
    apply in_range in Hj.
    apply too_close_true_iff in H as (bi & bj & H1 & H2 & H3).
    exists i, j, bi, bj. repeat split; auto. lia.
  - intros (i & j & bi & bj & Hij & H1 & H2 & H3).
    assert (Hj : (j < length l)%nat)
      by (apply nth_error_Some; rewrite H2; discriminate).
    exists i. split; [apply in_range; lia |].
    apply existsb_exists. exists j. split; [apply in_range; lia |].
    apply too_close_true_iff. now exists bi, bj.
Qed.

Lemma check_false_iff (l : layout) :
  check_partial_constraints l = false <->
  zone_violation l \/ distance_violation l.
Proof.
  unfold check_partial_constraints.
  rewrite <- zone_loop_true_iff, <- pair_loop_true_iff.
  destruct (existsb _ l); [intuition |].
  destruct (existsb _ (range 0 (length l))); intuition discriminate.
Qed.

Lemma zone_clear_iff (l : layout) : zone_clear l <-> ~ zone_violation l.
Proof.
  unfold zone_clear, zone_violation. split.
  - intros H (b & Hb & Ho). rewrite (H b Hb) in Ho. discriminate.
  - intros H b Hb. destruct (rectangles_overlap b plaza) eqn:E; auto.
    exfalso. apply H. now exists b.
Qed.

Lemma separated_iff (l : layout) : separated l <-> ~ distance_violation l.
Proof.
  unfold separated, distance_violation. split.
  - intros H (i & j & bi & bj & Hij & H1 & H2 & H3).
    specialize (H i j bi bj Hij H1 H2). lra.
  - intros H i j bi bj Hij H1 H2.
    destruct (Rle_lt_dec MIN_BUILDING_DISTANCE (rectangle_distance bi bj))
      as [Hle | Hlt]; auto.
    exfalso. apply H. now exists i, j, bi, bj.
Qed.

Lemma check_true_iff (l : layout) :
  check_partial_constraints l = true <-> zone_clear l /\ separated l.
Proof.
  rewrite zone_clear_iff, separated_iff, <- not_false_iff_true, check_false_iff.
  tauto.
Qed.

(** A violation inside a layout is still one after more rectangles are
    appended. *)
Lemma zone_violation_app (l t : layout) :
  zone_violation l -> zone_violation (l ++ t).
Proof.
  intros (b & Hb & H). exists b. split; auto. apply in_or_app. now left.
Qed.

Lemma distance_violation_app (l t : layout) :
  distance_violation l -> distance_violation (l ++ t).
Proof.
  intros (i & j & bi & bj & Hij & H1 & H2 & H3).
  exists i, j, bi, bj. repeat split; auto.
  - rewrite nth_error_app1; auto. apply nth_error_Some. rewrite H1. discriminate.
  - rewrite nth_error_app1; auto. apply nth_error_Some. rewrite H2. discriminate.
Qed.

Lemma check_app_prefix (l t : layout) :
  check_partial_constraints (l ++ t) = true ->
  check_partial_constraints l = true.
Proof.
  intros H. apply not_false_iff_true. intros Hf.
  apply check_false_iff in Hf.
  assert (Hf' : check_partial_constraints (l ++ t) = false).
  { apply check_false_iff.
    destruct Hf; [left; now apply zone_violation_app
                 | right; now apply distance_violation_app]. }
  congruence.
Qed.

(** A pair of rectangles. *)
Lemma distance_violation_pair (b1 b2 : building) :
  distance_violation [b1; b2] <->
  rectangle_distance b1 b2 < MIN_BUILDING_DISTANCE.
Proof.
  split.
  - intros (i & j & bi & bj & Hij & H1 & H2 & H3).
    destruct i as [| i].
    + destruct j as [| [| j]]; [lia | | destruct j; discriminate].
      simpl in H1, H2. now inversion H1; inversion H2; subst.
    + destruct j as [| [| j]]; [lia | lia |]. destruct j; discriminate.
  - intros H. exists 0%nat, 1%nat, b1, b2. repeat split; auto.
Qed.

Lemma zone_violation_pair (b1 b2 : building) :
  zone_violation [b1; b2] <->
  rectangles_overlap b1 plaza = true \/ rectangles_overlap b2 plaza = true.
Proof.
  unfold zone_violation. split.
  - intros (b & [<- | [<- | []]] & H); auto.
  - intros [H | H]; [exists b1 | exists b2]; simpl; auto.
Qed.

Lemma check_pair_true_iff (b1 b2 : building) :
  check_partial_constraints [b1; b2] = true <->
  rectangles_overlap b1 plaza = false /\
  rectangles_overlap b2 plaza = false /\
  MIN_BUILDING_DISTANCE <= rectangle_distance b1 b2.
Proof.
  rewrite <- not_false_iff_true, check_false_iff,
    zone_violation_pair, distance_violation_pair.
  destruct (rectangles_overlap b1 plaza), (rectangles_overlap b2 plaza);
    intuition (try discriminate; try lra).
Qed.

Lemma check_single_true_iff (b : building) :
  check_partial_constraints [b] = true <-> rectangles_overlap b plaza = false.
Proof.
  rewrite <- not_false_iff_true, check_false_iff. split.
  - intros H. destruct (rectangles_overlap b plaza) eqn:E; auto.
    exfalso. apply H. left. exists b. simpl. auto.
  - intros H [(c & [<- | []] & Hc) | (i & j & bi & bj & Hij & H1 & H2 & _)].
    + congruence.
    + destruct j as [| j]; [lia |]. destruct j; discriminate.
Qed.

(** ** Placement search *)

Lemma btype_eqb_eq (s t : btype) : btype_eqb s t = true <-> s = t.
Proof. destruct s, t; simpl; split; intros; congruence. Qed.

Lemma neighbor_check_true_iff (l : layout) :
  neighbor_check l = true <-> neighbor_rule l.
Proof.
  unfold neighbor_check, neighbor_rule. rewrite forallb_forall. split.
  - intros H a Ha Ht.
    assert (Hf : In a (filter (is_type A) l)).
    { apply filter_In. split; auto. now apply btype_eqb_eq. }
    apply H, existsb_exists in Hf. destruct Hf as (b & Hb & Hd).
    apply filter_In in Hb as [Hb Hbt].
    apply btype_eqb_eq in Hbt. apply Rleb_true_iff in Hd. now exists b.
  - intros H a Ha. apply filter_In in Ha as [Ha Ht].
    apply btype_eqb_eq in Ht. destruct (H a Ha Ht) as (b & Hb & Hbt & Hd).
    apply existsb_exists. exists b. split.
    + apply filter_In. split; auto. now apply btype_eqb_eq.
    + now apply Rleb_true_iff.
Qed.

Section SearchFacts.

Variable draws : nat -> R.

Lemma random_building_type (t : btype) (s : rng) :
  b_type (fst (random_building draws t s)) = t.
Proof. destruct t; reflexivity. Qed.

Lemma random_building_rng (t : btype) (s : rng) :
  snd (random_building draws t s) = S (S s).
Proof. destruct t; reflexivity. Qed.

Lemma random_building_inside_site (t : btype) (s : rng) :
  unit_draws draws -> inside_site (fst (random_building draws t s)).
Proof.
  intros Hu. pose proof (Hu s) as H0. pose proof (Hu (S s)) as H1.
  unfold inside_site, BOUNDARY_BUFFER, SITE_WIDTH, SITE_HEIGHT.
  destruct t; cbn; unfold BOUNDARY_BUFFER, SITE_WIDTH, SITE_HEIGHT; nra.
Qed.

(** What the inner loop returns was drawn by [random_building] for the
    requested type and passed the check together with the layout. *)
Lemma try_place_some (t : btype) (l : layout) (attempts : nat)
    (s s' : rng) (c : building) :
  try_place draws t l attempts s = (Some c, s') ->
  check_partial_constraints (l ++ [c]) = true /\
  exists s0 : rng, c = fst (random_building draws t s0).
Proof.
  revert s. induction attempts as [| k IH]; intros s; simpl.
  - discriminate.
  - destruct (random_building draws t s) as [cand s1] eqn:E.
    destruct (check_partial_constraints (l ++ [cand])) eqn:C.
    + intros H. inversion H; subst. split; auto.
      exists s. now rewrite E.
    + apply IH.
Qed.

(** The outer loop only appends: one rectangle per item, of the item's
    type, each drawn by [random_building]; feasibility is preserved. *)
Lemma place_all_some (items : list btype) (max_attempts : nat) :
  forall (l : layout) (s s' : rng) (r : layout),
    place_all draws items l max_attempts s = (Some r, s') ->
    exists t : layout,
      r = l ++ t /\
      map b_type t = items /\
      (check_partial_constraints l = true ->
       check_partial_constraints r = true) /\
      (forall c : building, In c t ->
         exists (k : btype) (s0 : rng),
           c = fst (random_building draws k s0)).
Proof.
  induction items as [| k items IH]; intros l s s' r; simpl.
  - intros H. inversion H; subst. exists []. rewrite app_nil_r.
    repeat split; auto. intros c [].
  - destruct (try_place draws k l max_attempts s) as [[c |] s1] eqn:E;
      [| discriminate].
    intros H. apply try_place_some in E as (Hc & s0 & Hs0).
    apply IH in H as (t & -> & Hty & Hchk & Hdrawn).
    exists (c :: t). split; [| split; [| split]].
    + now rewrite <- app_assoc.
    + simpl. f_equal; auto. rewrite Hs0. apply random_building_type.
    + intros _. now apply Hchk.
    + intros c' [<- | Hin]; auto. now exists k, s0.
Qed.

Lemma generate_layout_some (num_a num_b max_attempts : Z) (s : rng)
    (r : layout) :
  fst (generate_layout draws num_a num_b max_attempts s) = Some r ->
  (exists s' : rng,
     place_all draws (work_list num_a num_b) [] (Z.to_nat max_attempts) s
     = (Some r, s')) /\
  neighbor_check r = true.
Proof.
  unfold generate_layout.
  destruct (place_all draws _ [] (Z.to_nat max_attempts) s) as [[l |] s1];
    [| discriminate].
  destruct (neighbor_check l) eqn:E; [| discriminate].
  simpl. intros H. inversion H; subst. split; eauto.
Qed.

Lemma generate_layout_feasible (num_a num_b max_attempts : Z) (s : rng)
    (r : layout) :
  fst (generate_layout draws num_a num_b max_attempts s) = Some r ->
  check_partial_constraints r = true.
Proof.
  intros H. apply generate_layout_some in H as [(s' & H) _].
  apply place_all_some in H as (t & _ & _ & Hchk & _).
  now apply Hchk.
Qed.

Lemma generate_layout_types (num_a num_b max_attempts : Z) (s : rng)
    (r : layout) :
  fst (generate_layout draws num_a num_b max_attempts s) = Some r ->
  map b_type r = work_list num_a num_b.
Proof.
  intros H. apply generate_layout_some in H as [(s' & H) _].
  apply place_all_some in H as (t & -> & Hty & _). exact Hty.
Qed.

End SearchFacts.

(** ** Scorer *)

Lemma bind_ok {X Y : Type} (a : X) (k : X -> result Y) :
  (x <- Ok a ;; k x) = k a.
Proof. reflexivity. Qed.

Lemma fold_left_Rplus (l : list R) (a : R) :
  fold_left Rplus l a = a + sum_of l.
Proof.
  revert a. induction l as [| v l IH]; intros a; simpl.
  - lra.
  - rewrite IH. lra.
Qed.

Lemma py_sum_sum_of (l : list R) : py_sum l = sum_of l.
Proof. unfold py_sum. rewrite fold_left_Rplus. lra. Qed.

Lemma min_step (m u : R) : (if Rltb u m then u else m) = Rmin m u.
Proof.
  unfold Rmin. destruct (Rle_dec m u) as [H | H].
  - apply Rltb_false_iff in H. now rewrite H.
  - assert (H' : u < m) by lra. apply Rltb_true_iff in H'. now rewrite H'.
Qed.

Lemma max_step (m u : R) : (if Rltb m u then u else m) = Rmax m u.
Proof.
  unfold Rmax. destruct (Rle_dec m u) as [H | H].
  - destruct (Rltb m u) eqn:E; auto.
    apply Rltb_false_iff in E. lra.
  - assert (H' : u <= m) by lra. apply Rltb_false_iff in H'. now rewrite H'.
Qed.

Section FoldCommutative.

(** A left fold and a right fold of an associative, commutative operation
    agree: Python folds from the left, the specification from the right. *)
Variable op : R -> R -> R.
Hypothesis op_comm : forall a b, op a b = op b a.
Hypothesis op_assoc : forall a b c, op a (op b c) = op (op a b) c.

Lemma fold_right_push (l : list R) (a u : R) :
  fold_right op (op a u) l = op u (fold_right op a l).
Proof.
  induction l as [| v l IH]; simpl.
  - apply op_comm.
  - rewrite IH, !op_assoc. f_equal. apply op_comm.
Qed.

Lemma fold_left_right (l : list R) (a : R) :
  fold_left op l a = fold_right op a l.
Proof.
  revert a. induction l as [| v l IH]; intros a; simpl.
  - reflexivity.
  - rewrite IH. apply fold_right_push.
Qed.

End FoldCommutative.

Lemma py_min_least_of (v : R) (l : list R) :
  py_min (v :: l) = Ok (least_of (v :: l)).
Proof.
  simpl. f_equal.
  rewrite <- (fold_left_right Rmin Rmin_comm Rmin_assoc).
  revert v. induction l as [| u l IH]; intros v; simpl; auto.
  now rewrite min_step, IH.
Qed.

Lemma py_max_greatest_of (v : R) (l : list R) :
  py_max (v :: l) = Ok (greatest_of (v :: l)).
Proof.
  simpl. f_equal.
  rewrite <- (fold_left_right Rmax Rmax_comm Rmax_assoc).
  revert v. induction l as [| u l IH]; intros v; simpl; auto.
  now rewrite max_step, IH.
Qed.

(** [least_of] and [greatest_of] are the minimum and the maximum of a
    non-empty list. *)
Lemma least_of_spec (v : R) (l : list R) :
  In (least_of (v :: l)) (v :: l) /\
  forall u : R, In u (v :: l) -> least_of (v :: l) <= u.
Proof.
  simpl. induction l as [| w l [IHin IHle]]; simpl.
  - split; auto. intros u [<- | []]. lra.
  - split.
    + destruct (Rle_lt_dec w (fold_right Rmin v l)) as [H | H].
      * rewrite Rmin_left by exact H. auto.
      * rewrite Rmin_right by lra. destruct IHin as [<- | Hin]; auto.
    + intros u [<- | [<- | Hu]].
      * etransitivity; [apply Rmin_r |]. apply IHle. now left.
      * apply Rmin_l.
      * etransitivity; [apply Rmin_r |]. apply IHle. now right.
Qed.

Lemma greatest_of_spec (v : R) (l : list R) :
  In (greatest_of (v :: l)) (v :: l) /\
  forall u : R, In u (v :: l) -> u <= greatest_of (v :: l).
Proof.
  simpl. induction l as [| w l [IHin IHle]]; simpl.
  - split; auto. intros u [<- | []]. lra.
  - split.
    + destruct (Rle_lt_dec w (fold_right Rmax v l)) as [H | H].
      * rewrite Rmax_right by exact H. destruct IHin as [<- | Hin]; auto.
      * rewrite Rmax_left by lra. auto.
    + intros u [<- | [<- | Hu]].
      * etransitivity; [| apply Rmax_r]. apply IHle. now left.
      * apply Rmax_l.
      * etransitivity; [| apply Rmax_r]. apply IHle. now right.
Qed.

Lemma proximity_loop_ok (tower_a tower_b : layout) (acc : R) :
  tower_b <> [] ->
  proximity_loop tower_a tower_b acc =
  Ok (acc + sum_of (map (fun a : building =>
                      proximity_reward
                        (least_of (map (fun b : building =>
                                          rectangle_distance a b) tower_b)))
                      tower_a)).
Proof.
  intros Hb. revert acc. induction tower_a as [| a ta IH]; intros acc; simpl.
  - f_equal. lra.
  - destruct tower_b as [| b tb]; [congruence |].
    cbn [map]. rewrite py_min_least_of, bind_ok, IH. f_equal. cbn [map]. lra.
Qed.

Lemma proximity_loop_raise (a : building) (tower_a : layout) (acc : R) :
  proximity_loop (a :: tower_a) [] acc = Raise ValueError.
Proof. reflexivity. Qed.

Lemma secondaries_nonempty (l : layout) :
  (exists b : building, In b l /\ b_type b = B) <-> secondaries l <> [].
Proof.
  unfold secondaries. split.
  - intros (b & Hb & Ht) E.
    assert (H : In b (filter (fun b => btype_eqb (b_type b) B) l))
      by (apply filter_In; split; auto; now apply btype_eqb_eq).
    rewrite E in H. destruct H.
  - destruct (filter _ l) as [| b t] eqn:E; [congruence |]. intros _.
    assert (H : In b (filter (fun b => btype_eqb (b_type b) B) l))
      by (rewrite E; now left).
    apply filter_In in H as [H1 H2]. apply btype_eqb_eq in H2. eauto.
Qed.

Lemma primaries_nonempty (l : layout) :
  (exists a : building, In a l /\ b_type a = A) <-> primaries l <> [].
Proof.
  unfold primaries. split.
  - intros (b & Hb & Ht) E.
    assert (H : In b (filter (fun b => btype_eqb (b_type b) A) l))
      by (apply filter_In; split; auto; now apply btype_eqb_eq).
    rewrite E in H. destruct H.
  - destruct (filter _ l) as [| b t] eqn:E; [congruence |]. intros _.
    assert (H : In b (filter (fun b => btype_eqb (b_type b) A) l))
      by (rewrite E; now left).
    apply filter_In in H as [H1 H2]. apply btype_eqb_eq in H2. eauto.
Qed.

(** With a Secondary rectangle present the scorer returns the weighted sum
    of the specification. *)
Lemma compute_score_with_secondary (l : layout) :
  secondaries l <> [] -> compute_score l = Ok (score_spec l).
Proof.
  intros Hb. unfold compute_score.
  change (filter (is_type B) l) with (secondaries l).
  change (filter (is_type A) l) with (primaries l).
  rewrite proximity_loop_ok by exact Hb. rewrite bind_ok.
  destruct l as [| b l]; [now elim Hb |].
  cbn [map]. rewrite !py_max_greatest_of, !py_min_least_of, !bind_ok.
  rewrite py_sum_sum_of. f_equal.
  unfold score_spec, total_area_spec, proximity_score_spec,
    spread_penalty_spec, nearest_secondary_distance, proximity_reward.
  cbn [map]. lra.
Qed.

(** Without one it raises: [min()] of an empty sequence for the first
    Primary rectangle, or [max(xs)] of an empty layout. *)
Lemma compute_score_without_secondary (l : layout) :
  secondaries l = [] -> compute_score l = Raise ValueError.
Proof.
  intros Hb. unfold compute_score.
  change (filter (is_type B) l) with (secondaries l).
  change (filter (is_type A) l) with (primaries l).
  rewrite Hb. destruct l as [| b l]; [reflexivity |].
  unfold primaries, secondaries in *. cbn [filter] in *.
  destruct (b_type b); cbn [btype_eqb] in *; [reflexivity | discriminate].
Qed.

(** ** Sample runs *)

(** Unfolds the module constants, leaving linear real arithmetic. *)
Ltac by_constants :=
  unfold PLAZA_X, PLAZA_Y, PLAZA_SIZE, SITE_WIDTH, SITE_HEIGHT,
    BOUNDARY_BUFFER, MIN_BUILDING_DISTANCE, NEIGHBOR_DISTANCE in *;
  lra.

Lemma sample_a_clear : rectangles_overlap sample_a plaza = false.
Proof.
  apply rectangles_overlap_false_iff. cbn. by_constants.
Qed.

Lemma sample_b_at_clear (x0 : R) :
  rectangles_overlap (sample_b_at x0) plaza = false.
Proof.
  apply rectangles_overlap_false_iff. cbn. by_constants.
Qed.

Lemma sample_a_b_distance : rectangle_distance sample_a sample_b = 50.
Proof. rewrite rectangle_distance_x_gap; cbn; lra. Qed.

Lemma sample_b_distance (x0 : R) :
  110 <= x0 -> rectangle_distance sample_b (sample_b_at x0) = x0 - 110.
Proof. intros H. rewrite rectangle_distance_x_gap; cbn; lra. Qed.

Lemma sample_layout_feasible :
  check_partial_constraints [sample_a; sample_b] = true.
Proof.
  apply check_pair_true_iff. split; [apply sample_a_clear |].
  split; [apply (sample_b_at_clear 90) |].
  rewrite sample_a_b_distance. by_constants.
Qed.

Lemma sample_layout_neighbors : neighbor_check [sample_a; sample_b] = true.
Proof.
  apply neighbor_check_true_iff. intros a [<- | [<- | []]] Ht.
  - exists sample_b. split; [simpl; auto |]. split; [reflexivity |].
    rewrite sample_a_b_distance. by_constants.
  - discriminate.
Qed.

Lemma sample_draw_a : random_building sample_draws A 0%nat = (sample_a, 2%nat).
Proof.
  unfold random_building, uniform, sample_a, sample_draws. cbn.
  unfold BOUNDARY_BUFFER, SITE_WIDTH, SITE_HEIGHT.
  repeat f_equal; lra.
Qed.

Lemma sample_draw_b : random_building sample_draws B 2%nat = (sample_b, 4%nat).
Proof.
  unfold random_building, uniform, sample_b, sample_draws. cbn.
  unfold BOUNDARY_BUFFER, SITE_WIDTH, SITE_HEIGHT.
  repeat f_equal; lra.
Qed.

Lemma sample_run :
  generate_layout sample_draws 1 1 1 0%nat = (Some [sample_a; sample_b], 4%nat).
Proof.
  unfold generate_layout, work_list.
  change (Z.to_nat 1) with 1%nat. cbn [repeat app place_all try_place].
  rewrite sample_draw_a. cbn [app].
  rewrite (proj2 (check_single_true_iff sample_a) sample_a_clear).
  rewrite sample_draw_b, sample_layout_feasible, sample_layout_neighbors.
  reflexivity.
Qed.

Lemma sample_unit_draws : unit_draws sample_draws.
Proof.
  intros n. unfold sample_draws.
  destruct n as [| [| [| n]]]; lra.
Qed.

(** For rectangles of non-negative size, [share_boundary] says that some
    point of the plane lies in both closed regions. *)
Lemma share_boundary_common_point (r1 r2 : rect) :
  0 <= r_w r1 -> 0 <= r_h r1 -> 0 <= r_w r2 -> 0 <= r_h r2 ->
  (share_boundary r1 r2 <->
   exists px py : R,
     (r_x r1 <= px <= r_x r1 + r_w r1 /\ r_y r1 <= py <= r_y r1 + r_h r1) /\
     (r_x r2 <= px <= r_x r2 + r_w r2 /\ r_y r2 <= py <= r_y r2 + r_h r2)).
Proof.
  intros W1 H1 W2 H2. unfold share_boundary. split.
  - intros (Ha & Hb & Hc & Hd).
    exists (Rmax (r_x r1) (r_x r2)), (Rmax (r_y r1) (r_y r2)).
    pose proof (Rmax_l (r_x r1) (r_x r2)). pose proof (Rmax_r (r_x r1) (r_x r2)).
    pose proof (Rmax_l (r_y r1) (r_y r2)). pose proof (Rmax_r (r_y r1) (r_y r2)).
    assert (Rmax (r_x r1) (r_x r2) <= r_x r1 + r_w r1) by (apply Rmax_lub; lra).
    assert (Rmax (r_x r1) (r_x r2) <= r_x r2 + r_w r2) by (apply Rmax_lub; lra).
    assert (Rmax (r_y r1) (r_y r2) <= r_y r1 + r_h r1) by (apply Rmax_lub; lra).
    assert (Rmax (r_y r1) (r_y r2) <= r_y r2 + r_h r2) by (apply Rmax_lub; lra).
    lra.
  - intros (px & py & Ha & Hb). lra.
Qed.

(** * The properties of the specification *)

(** ** C1.  Every layout returned by [generate_layout] passes
    [check_partial_constraints] as a whole: no rectangle overlaps the
    Reserved Zone and every unordered pair of rectangles is at least
    [MIN_BUILDING_DISTANCE] apart; moreover every Primary rectangle has a
    Secondary rectangle at distance at most [NEIGHBOR_DISTANCE]. *)
Theorem generate_layout_invariants (draws : nat -> R)
    (num_a num_b max_attempts : Z) (s : rng) (l : layout) :
  fst (generate_layout draws num_a num_b max_attempts s) = Some l ->
  check_partial_constraints l = true /\
  zone_clear l /\ separated l /\ neighbor_rule l.
Proof.
  intros H. pose proof (generate_layout_feasible _ _ _ _ _ _ H) as Hc.
  split; [exact Hc |]. apply check_true_iff in Hc as [Hz Hs].
  split; [exact Hz |]. split; [exact Hs |].
  apply neighbor_check_true_iff. now apply generate_layout_some in H.
Qed.

Lemma generate_layout_invariants_witness :
  fst (generate_layout sample_draws 1 1 1 0%nat) = Some [sample_a; sample_b] /\
  check_partial_constraints [sample_a; sample_b] = true /\
  zone_clear [sample_a; sample_b] /\ separated [sample_a; sample_b] /\
  neighbor_rule [sample_a; sample_b].
Proof.
  split.
  - rewrite sample_run. reflexivity.
  - apply (generate_layout_invariants sample_draws 1%Z 1%Z 1%Z 0%nat).
    rewrite sample_run. reflexivity.
Defined.

(** ** C2.  [check_partial_constraints] returns false exactly when some
    rectangle overlaps the Reserved Zone or some unordered pair of
    rectangles is strictly closer than [MIN_BUILDING_DISTANCE].  Two
    rectangles clear of the zone and exactly [MIN_BUILDING_DISTANCE] apart
    are feasible; at any smaller positive separation they are not. *)
Theorem check_partial_constraints_false_iff :
  (forall l : layout,
     check_partial_constraints l = false <->
     zone_violation l \/ distance_violation l) /\
  (forall b1 b2 : building,
     rectangles_overlap b1 plaza = false ->
     rectangles_overlap b2 plaza = false ->
     rectangle_distance b1 b2 = MIN_BUILDING_DISTANCE ->
     check_partial_constraints [b1; b2] = true) /\
  (forall b1 b2 : building,
     0 < rectangle_distance b1 b2 < MIN_BUILDING_DISTANCE ->
     check_partial_constraints [b1; b2] = false).
Proof.
  split; [exact check_false_iff |]. split.
  - intros b1 b2 H1 H2 Hd. apply check_pair_true_iff. rewrite Hd.
    repeat split; auto. lra.
  - intros b1 b2 [_ Hd]. apply check_false_iff. right.
    now apply distance_violation_pair.
Qed.

Lemma check_partial_constraints_false_iff_witness :
  (rectangles_overlap sample_b plaza = false /\
   rectangles_overlap (sample_b_at 125) plaza = false /\
   rectangle_distance sample_b (sample_b_at 125) = MIN_BUILDING_DISTANCE /\
   check_partial_constraints [sample_b; sample_b_at 125] = true) /\
  (0 < rectangle_distance sample_b (sample_b_at 124) < MIN_BUILDING_DISTANCE /\
   check_partial_constraints [sample_b; sample_b_at 124] = false).
Proof.
  assert (D15 : rectangle_distance sample_b (sample_b_at 125)
                = MIN_BUILDING_DISTANCE).
  { rewrite sample_b_distance by lra. by_constants. }
  assert (D14 : 0 < rectangle_distance sample_b (sample_b_at 124)
                < MIN_BUILDING_DISTANCE).
  { rewrite sample_b_distance by lra. by_constants. }
  split.
  - split; [apply (sample_b_at_clear 90) |].
    split; [apply sample_b_at_clear |]. split; [exact D15 |].
    apply (proj1 (proj2 check_partial_constraints_false_iff));
      [apply (sample_b_at_clear 90) | apply sample_b_at_clear | exact D15].
  - split; [exact D14 |].
    apply (proj2 (proj2 check_partial_constraints_false_iff)). exact D14.
Defined.

(** ** C3.  On a layout with at least one Primary and at least one
    Secondary rectangle, [compute_score] returns
    20 * count + 0.03 * total area + 3.0 * proximity score
    - 0.15 * spread penalty, where the proximity score sums, over the
    Primary rectangles, max(0, NEIGHBOR_DISTANCE - distance to the nearest
    Secondary), and the spread penalty is (max x - min x) + (max y - min y)
    over the rectangle origins. *)
Theorem compute_score_formula (l : layout) :
  (exists a : building, In a l /\ b_type a = A) ->
  (exists b : building, In b l /\ b_type b = B) ->
  compute_score l = Ok (score_spec l).
Proof.
  intros _ Hb. apply compute_score_with_secondary.
  now apply secondaries_nonempty.
Qed.

Lemma compute_score_formula_witness :
  (exists a : building, In a [sample_a; sample_b] /\ b_type a = A) /\
  (exists b : building, In b [sample_a; sample_b] /\ b_type b = B) /\
  compute_score [sample_a; sample_b] = Ok (score_spec [sample_a; sample_b]).
Proof.
  assert (Ha : exists a : building,
             In a [sample_a; sample_b] /\ b_type a = A)
    by (exists sample_a; simpl; auto).
  assert (Hb : exists b : building,
             In b [sample_a; sample_b] /\ b_type b = B)
    by (exists sample_b; simpl; auto).
  split; [exact Ha |]. split; [exact Hb |].
  exact (compute_score_formula [sample_a; sample_b] Ha Hb).
Defined.

(** The value of the formula on the sample layout:
    20 * 2 + 0.03 * 1000 + 3.0 * 10 - 0.15 * 80 = 88. *)
Example sample_score : compute_score [sample_a; sample_b] = Ok 88.
Proof.
  rewrite compute_score_with_secondary by (cbn; discriminate). f_equal.
  unfold score_spec, total_area_spec, proximity_score_spec,
    spread_penalty_spec, nearest_secondary_distance.
  cbn [primaries secondaries filter b_type sample_a sample_b btype_eqb map
       least_of greatest_of fold_right sum_of length].
  rewrite sample_a_b_distance. cbn. unfold NEIGHBOR_DISTANCE.
  rewrite (Rmax_right 0 (60 - 50)), (Rmax_left 90 10), (Rmin_right 90 10),
    (Rmax_left 10 10), (Rmin_left 10 10) by lra.
  lra.
Qed.

(** ** C5 (as stated, refuted).  A layout of one Secondary rectangle has no
    Primary rectangle, and [compute_score] returns 32 for it instead of
    failing. *)
Lemma compute_score_no_primary_returns :
  primaries [sample_b] = [] /\ compute_score [sample_b] = Ok 32.
Proof.
  split; [reflexivity |].
  rewrite compute_score_with_secondary by (cbn; discriminate). f_equal.
  unfold score_spec, total_area_spec, proximity_score_spec,
    spread_penalty_spec. cbn. lra.
Qed.

(** ** C5 (amended).  [compute_score] raises exactly when the layout has no
    Secondary rectangle; with one present it returns the score, and when
    there is then no Primary rectangle the proximity score is 0. *)
Theorem compute_score_raises_iff (l : layout) :
  (compute_score l = Raise ValueError <-> secondaries l = []) /\
  (secondaries l <> [] -> compute_score l = Ok (score_spec l)) /\
  (secondaries l <> [] -> primaries l = [] ->
   compute_score l =
   Ok (20 * INR (length l) + 0.03 * total_area_spec l -
       0.15 * spread_penalty_spec l)).
Proof.
  split; [| split].
  - split.
    + intros H. destruct (secondaries l) eqn:E; auto.
      rewrite compute_score_with_secondary in H; [discriminate |].
      rewrite E. discriminate.
    + apply compute_score_without_secondary.
  - apply compute_score_with_secondary.
  - intros Hb Ha. rewrite compute_score_with_secondary by exact Hb.
    f_equal. unfold score_spec, proximity_score_spec. rewrite Ha. cbn. lra.
Qed.

Lemma compute_score_raises_iff_witness :
  (secondaries [sample_a] = [] /\
   compute_score [sample_a] = Raise ValueError) /\
  (secondaries [sample_b] <> [] /\ primaries [sample_b] = [] /\
   compute_score [sample_b] =
   Ok (20 * INR (length [sample_b]) + 0.03 * total_area_spec [sample_b] -
       0.15 * spread_penalty_spec [sample_b])).
Proof.
  split.
  - split; [reflexivity |].
    apply (proj1 (compute_score_raises_iff [sample_a])). reflexivity.
  - assert (Hb : secondaries [sample_b] <> []) by (cbn; discriminate).
    split; [exact Hb |]. split; [reflexivity |].
    apply (proj2 (proj2 (compute_score_raises_iff [sample_b])) Hb).
    reflexivity.
Defined.

(** ** C4.  With at least one Primary and no Secondary item requested,
    [generate_layout] returns [None] for every stream of draws, every
    attempt cap and every state of the random source. *)
Theorem generate_layout_no_secondary (draws : nat -> R)
    (num_a max_attempts : Z) (s : rng) :
  (1 <= num_a)%Z ->
  fst (generate_layout draws num_a 0 max_attempts s) = None.
Proof.
  intros Hn.
  destruct (fst (generate_layout draws num_a 0 max_attempts s))
    as [l |] eqn:E; [exfalso | reflexivity].
  pose proof (generate_layout_types _ _ _ _ _ _ E) as Hty.
  apply generate_layout_some in E as [_ Hnb].
  apply neighbor_check_true_iff in Hnb.
  unfold work_list in Hty. cbn [Z.to_nat repeat] in Hty.
  rewrite app_nil_r in Hty.
  destruct (Z.to_nat num_a) as [| n] eqn:En; [lia |].
  destruct l as [| a l]; [discriminate |].
  assert (Ha : b_type a = A) by (cbn [repeat map] in Hty; congruence).
  destruct (Hnb a (or_introl eq_refl) Ha) as (b & Hb & Hbt & _).
  assert (Hin : In (b_type b) (repeat A (S n)))
    by (rewrite <- Hty; now apply in_map).
  apply repeat_spec in Hin. congruence.
Qed.

Lemma generate_layout_no_secondary_witness :
  (1 <= 1)%Z /\ fst (generate_layout sample_draws 1 0 1 0%nat) = None.
Proof.
  split; [lia |].
  apply (generate_layout_no_secondary sample_draws 1%Z 1%Z 0%nat). lia.
Defined.

(** ** C6.  Whatever the draws (each a value of the unit interval), every
    rectangle of a returned layout keeps [BOUNDARY_BUFFER] from the four
    edges of the site. *)
Theorem generate_layout_inside_site (draws : nat -> R)
    (num_a num_b max_attempts : Z) (s : rng) (l : layout) :
  unit_draws draws ->
  fst (generate_layout draws num_a num_b max_attempts s) = Some l ->
  forall b : building, In b l ->
    BOUNDARY_BUFFER <= r_x b /\
    r_x b + r_w b <= SITE_WIDTH - BOUNDARY_BUFFER /\
    BOUNDARY_BUFFER <= r_y b /\
    r_y b + r_h b <= SITE_HEIGHT - BOUNDARY_BUFFER.
Proof.
  intros Hu H b Hb.
  apply generate_layout_some in H as [(s' & H) _].
  apply place_all_some in H as (t & -> & _ & _ & Hdrawn).
  destruct (Hdrawn b Hb) as (k & s0 & ->).
  now apply random_building_inside_site.
Qed.

Lemma generate_layout_inside_site_witness :
  unit_draws sample_draws /\
  fst (generate_layout sample_draws 1 1 1 0%nat) = Some [sample_a; sample_b] /\
  forall b : building, In b [sample_a; sample_b] ->
    BOUNDARY_BUFFER <= r_x b /\
    r_x b + r_w b <= SITE_WIDTH - BOUNDARY_BUFFER /\
    BOUNDARY_BUFFER <= r_y b /\
    r_y b + r_h b <= SITE_HEIGHT - BOUNDARY_BUFFER.
Proof.
  assert (Hrun : fst (generate_layout sample_draws 1 1 1 0%nat)
                 = Some [sample_a; sample_b])
    by (rewrite sample_run; reflexivity).
  split; [exact sample_unit_draws |]. split; [exact Hrun |].
  exact (generate_layout_inside_site sample_draws 1%Z 1%Z 1%Z 0%nat
           [sample_a; sample_b] sample_unit_draws Hrun).
Defined.

(** ** C7.  [rectangle_distance] is symmetric and non-negative, and it is 0
    whenever the rectangles overlap or share a boundary. *)
Theorem rectangle_distance_properties (r1 r2 : rect) :
  rectangle_distance r1 r2 = rectangle_distance r2 r1 /\
  0 <= rectangle_distance r1 r2 /\
  (rectangles_overlap r1 r2 = true \/ share_boundary r1 r2 ->
   rectangle_distance r1 r2 = 0).
Proof.
  split; [apply rectangle_distance_sym |].
  split; [apply rectangle_distance_nonneg |].
  intros [H | H]; apply rectangle_distance_zero_iff; auto.
  now apply rectangles_overlap_share_boundary.
Qed.

Lemma rectangle_distance_properties_witness :
  share_boundary sample_b (sample_b_at 110) /\
  rectangle_distance sample_b (sample_b_at 110) = 0.
Proof.
  assert (H : share_boundary sample_b (sample_b_at 110))
    by (unfold share_boundary; cbn; lra).
  split; [exact H |].
  apply (proj2 (proj2 (rectangle_distance_properties sample_b
                         (sample_b_at 110)))).
  right. exact H.
Defined.

(** ** C8.  In the scorer's loop a Primary rectangle adds
    [proximity_reward d] to [proximity_score], [d] being its distance to the
    nearest Secondary rectangle.  That contribution does not increase with
    [d], is never negative, and is 0 from [NEIGHBOR_DISTANCE] on. *)
Theorem proximity_reward_monotone :
  (forall (a : building) (tower_a tower_b : layout) (acc : R),
     tower_b <> [] ->
     proximity_loop (a :: tower_a) tower_b acc =
     proximity_loop tower_a tower_b
       (acc + proximity_reward
                (least_of (map (fun b : building => rectangle_distance a b)
                               tower_b)))) /\
  (forall d1 d2 : R,
     d1 <= d2 -> proximity_reward d2 <= proximity_reward d1) /\
  (forall d : R, 0 <= proximity_reward d) /\
  (forall d : R, NEIGHBOR_DISTANCE <= d -> proximity_reward d = 0).
Proof.
  unfold proximity_reward. repeat split.
  - intros a ta tb acc Hb. destruct tb as [| b tb]; [congruence |].
    cbn [proximity_loop map]. now rewrite py_min_least_of, bind_ok.
  - intros d1 d2 H. apply Rmax_lub; [apply Rmax_l |].
    etransitivity; [| apply Rmax_r]. lra.
  - intros d. apply Rmax_l.
  - intros d H. apply Rmax_left. lra.
Qed.

Lemma proximity_reward_monotone_witness :
  50 <= 55 /\ proximity_reward 55 <= proximity_reward 50 /\
  NEIGHBOR_DISTANCE <= 60 /\ proximity_reward 60 = 0.
Proof.
  assert (H1 : 50 <= 55) by lra.
  assert (H2 : NEIGHBOR_DISTANCE <= 60) by by_constants.
  split; [exact H1 |].
  split; [exact (proj1 (proj2 proximity_reward_monotone) 50 55 H1) |].
  split; [exact H2 |].
  exact (proj2 (proj2 (proj2 proximity_reward_monotone)) 60 H2).
Defined.

(** ** C9.  With both counts zero [generate_layout] returns the empty
    layout, not [None], without consulting the random source. *)
Theorem generate_layout_empty (draws : nat -> R) (max_attempts : Z)
    (s : rng) :
  generate_layout draws 0 0 max_attempts s = (Some [], s).
Proof. reflexivity. Qed.

(** The outer loop run on [items1 ++ items2] is the loop run on [items1]
    followed, from the layout committed so far, by the loop run on
    [items2]; it stops at the first item that cannot be placed. *)
Lemma place_all_app (draws : nat -> R) (items1 items2 : list btype)
    (max_attempts : nat) :
  forall (l : layout) (s : rng),
    place_all draws (items1 ++ items2) l max_attempts s
    = match place_all draws items1 l max_attempts s with
      | (Some r, s1) => place_all draws items2 r max_attempts s1
      | (None, s1) => (None, s1)
      end.
Proof.
  induction items1 as [| t items1 IH]; intros l s; cbn [app place_all].
  - reflexivity.
  - destruct (try_place draws t l max_attempts s) as [[c |] s1]; auto.
Qed.

Lemma check_prefixes (l : layout) (k : nat) :
  check_partial_constraints l = true ->
  check_partial_constraints (firstn k l) = true.
Proof.
  intros H. rewrite <- (firstn_skipn k l) in H.
  now apply check_app_prefix in H.
Qed.

Lemma sample_try_place :
  try_place sample_draws A [] 1 0%nat = (Some sample_a, 2%nat).
Proof.
  cbn [try_place]. rewrite sample_draw_a. cbn [app].
  now rewrite (proj2 (check_single_true_iff sample_a) sample_a_clear).
Qed.

Lemma sample_place_one :
  place_all sample_draws [A] [] 1 0%nat = (Some [sample_a], 2%nat).
Proof. cbn [place_all]. now rewrite sample_try_place. Qed.

(** ** C10.  A layout that passes [check_partial_constraints] with a
    rectangle appended passes it without.  The search commits a candidate
    only when the layout with the candidate appended passes the check; so
    the layout committed after any part of the work list is feasible, as is
    each of its prefixes, whether the run then returns a layout or [None];
    and so is every prefix of a returned layout. *)
Theorem check_partial_constraints_antitone :
  (forall (l : layout) (c : building),
     check_partial_constraints (l ++ [c]) = true ->
     check_partial_constraints l = true) /\
  (forall (draws : nat -> R) (t : btype) (l : layout) (attempts : nat)
          (s s' : rng) (c : building),
     try_place draws t l attempts s = (Some c, s') ->
     check_partial_constraints (l ++ [c]) = true) /\
  (forall (draws : nat -> R) (items1 items2 : list btype) (l : layout)
          (max_attempts : nat) (s s1 : rng) (r : layout),
     check_partial_constraints l = true ->
     place_all draws items1 l max_attempts s = (Some r, s1) ->
     check_partial_constraints r = true /\
     (forall k : nat, check_partial_constraints (firstn k r) = true) /\
     place_all draws (items1 ++ items2) l max_attempts s
     = place_all draws items2 r max_attempts s1) /\
  (forall (draws : nat -> R) (num_a num_b max_attempts : Z) (s s1 : rng)
          (items1 items2 : list btype) (r : layout),
     work_list num_a num_b = items1 ++ items2 ->
     place_all draws items1 [] (Z.to_nat max_attempts) s = (Some r, s1) ->
     check_partial_constraints r = true /\
     generate_layout draws num_a num_b max_attempts s
     = match place_all draws items2 r (Z.to_nat max_attempts) s1 with
       | (Some buildings, s') =>
           if neighbor_check buildings then (Some buildings, s')
           else (None, s')
       | (None, s') => (None, s')
       end) /\
  (forall (draws : nat -> R) (num_a num_b max_attempts : Z) (s : rng)
          (l : layout) (k : nat),
     fst (generate_layout draws num_a num_b max_attempts s) = Some l ->
     check_partial_constraints (firstn k l) = true).
Proof.
  split; [| split; [| split; [| split]]].
  - intros l c. apply check_app_prefix.
  - intros draws t l attempts s s' c H.
    now apply try_place_some in H as [H _].
  - intros draws items1 items2 l max_attempts s s1 r Hl H.
    assert (Hr : check_partial_constraints r = true).
    { apply place_all_some in H as (t & _ & _ & Hchk & _). now apply Hchk. }
    split; [exact Hr |]. split.
    + intros k. now apply check_prefixes.
    + now rewrite place_all_app, H.
  - intros draws num_a num_b max_attempts s s1 items1 items2 r Hw H. split.
    + apply place_all_some in H as (t & _ & _ & Hchk & _).
      now apply Hchk.
    + unfold generate_layout. now rewrite Hw, place_all_app, H.
  - intros draws num_a num_b max_attempts s l k H.
    apply check_prefixes. eapply generate_layout_feasible; eauto.
Qed.

Lemma check_partial_constraints_antitone_witness :
  (check_partial_constraints ([sample_a] ++ [sample_b]) = true /\
   check_partial_constraints [sample_a] = true) /\
  (try_place sample_draws A [] 1 0%nat = (Some sample_a, 2%nat) /\
   check_partial_constraints ([] ++ [sample_a]) = true) /\
  (check_partial_constraints [] = true /\
   place_all sample_draws [A] [] 1 0%nat = (Some [sample_a], 2%nat) /\
   check_partial_constraints [sample_a] = true /\
   (forall k : nat,
      check_partial_constraints (firstn k [sample_a]) = true) /\
   place_all sample_draws ([A] ++ [B]) [] 1 0%nat
   = place_all sample_draws [B] [sample_a] 1 2%nat) /\
  (work_list 1 0 = [A] ++ [] /\
   place_all sample_draws [A] [] (Z.to_nat 1) 0%nat
   = (Some [sample_a], 2%nat) /\
   check_partial_constraints [sample_a] = true /\
   generate_layout sample_draws 1 0 1 0%nat = (None, 2%nat)) /\
  (fst (generate_layout sample_draws 1 1 1 0%nat)
   = Some [sample_a; sample_b] /\
   check_partial_constraints (firstn 1 [sample_a; sample_b]) = true).
Proof.
  assert (Hw : work_list 1 0 = [A] ++ []) by reflexivity.
  assert (Hrun : fst (generate_layout sample_draws 1 1 1 0%nat)
                 = Some [sample_a; sample_b])
    by (rewrite sample_run; reflexivity).
  assert (Hnil : check_partial_constraints [] = true) by reflexivity.
  split; [| split; [| split; [| split]]].
  - split; [exact sample_layout_feasible |].
    exact (proj1 check_partial_constraints_antitone [sample_a] sample_b
             sample_layout_feasible).
  - split; [exact sample_try_place |].
    exact (proj1 (proj2 check_partial_constraints_antitone)
             sample_draws A [] 1%nat 0%nat 2%nat sample_a sample_try_place).
  - split; [exact Hnil |]. split; [exact sample_place_one |].
    exact (proj1 (proj2 (proj2 check_partial_constraints_antitone))
             sample_draws [A] [B] [] 1%nat 0%nat 2%nat [sample_a]
             Hnil sample_place_one).
  - split; [exact Hw |]. split; [exact sample_place_one |].
    destruct (proj1 (proj2 (proj2 (proj2 check_partial_constraints_antitone)))
                sample_draws 1%Z 0%Z 1%Z 0%nat 2%nat [A] [] [sample_a]
                Hw sample_place_one) as [Hc Hg].
    split; [exact Hc |]. rewrite Hg. reflexivity.
  - split; [exact Hrun |].
    exact (proj2 (proj2 (proj2 (proj2 check_partial_constraints_antitone)))
             sample_draws 1%Z 1%Z 1%Z 0%nat [sample_a; sample_b] 1%nat Hrun).
Defined.

(** * Further properties of the code *)

(** ** Geometry helpers *)

(** X1.  [rectangles_overlap] does not depend on the order of its
    arguments. *)
Theorem rectangles_overlap_sym (r1 r2 : rect) :
  rectangles_overlap r1 r2 = rectangles_overlap r2 r1.
Proof.
  unfold rectangles_overlap. f_equal.
  destruct (Rleb (r_x r1 + r_w r1) (r_x r2)),
           (Rleb (r_x r2 + r_w r2) (r_x r1)),
           (Rleb (r_y r1 + r_h r1) (r_y r2)),
           (Rleb (r_y r2 + r_h r2) (r_y r1)); reflexivity.
Qed.

(** X2.  For rectangles of positive width and height, [rectangles_overlap]
    holds exactly when some point lies strictly inside both: rectangles that
    only touch along an edge or at a corner do not overlap. *)
Theorem rectangles_overlap_interiors (r1 r2 : rect) :
  0 < r_w r1 -> 0 < r_h r1 -> 0 < r_w r2 -> 0 < r_h r2 ->
  (rectangles_overlap r1 r2 = true <-> interiors_meet r1 r2).
Proof.
  intros W1 H1 W2 H2. rewrite rectangles_overlap_true_iff.
  unfold interiors_meet. split.
  - intros (Ha & Hb & Hc & Hd).
    assert (Hx : Rmax (r_x r1) (r_x r2)
                 < Rmin (r_x r1 + r_w r1) (r_x r2 + r_w r2))
      by (apply Rmax_lub_lt; apply Rmin_glb_lt; lra).
    assert (Hy : Rmax (r_y r1) (r_y r2)
                 < Rmin (r_y r1 + r_h r1) (r_y r2 + r_h r2))
      by (apply Rmax_lub_lt; apply Rmin_glb_lt; lra).
    pose proof (Rmax_l (r_x r1) (r_x r2)).
    pose proof (Rmax_r (r_x r1) (r_x r2)).
    pose proof (Rmin_l (r_x r1 + r_w r1) (r_x r2 + r_w r2)).
    pose proof (Rmin_r (r_x r1 + r_w r1) (r_x r2 + r_w r2)).
    pose proof (Rmax_l (r_y r1) (r_y r2)).
    pose proof (Rmax_r (r_y r1) (r_y r2)).
    pose proof (Rmin_l (r_y r1 + r_h r1) (r_y r2 + r_h r2)).
    pose proof (Rmin_r (r_y r1 + r_h r1) (r_y r2 + r_h r2)).
    set (lx := Rmax (r_x r1) (r_x r2)) in *.
    set (hx := Rmin (r_x r1 + r_w r1) (r_x r2 + r_w r2)) in *.
    set (ly := Rmax (r_y r1) (r_y r2)) in *.
    set (hy := Rmin (r_y r1 + r_h r1) (r_y r2 + r_h r2)) in *.
    exists ((lx + hx) / 2), ((ly + hy) / 2). lra.
  - intros (px & py & Ha & Hb). lra.
Qed.

Lemma rectangles_overlap_interiors_witness :
  rectangles_overlap sample_b (sample_b_at 100) = true <->
  interiors_meet sample_b (sample_b_at 100).
Proof.
  apply (rectangles_overlap_interiors sample_b (sample_b_at 100)); cbn; lra.
Defined.

(** X3.  [rectangle_distance] is positive exactly when the closed regions
    of the two rectangles are disjoint. *)
Theorem rectangle_distance_positive_iff (r1 r2 : rect) :
  0 < rectangle_distance r1 r2 <-> ~ share_boundary r1 r2.
Proof.
  rewrite <- rectangle_distance_zero_iff.
  pose proof (rectangle_distance_nonneg r1 r2). lra.
Qed.

Lemma max3_ge_l (a b c : R) : a <= max3 a b c.
Proof.
  unfold max3. etransitivity; [apply (Rmax_l a b) | apply Rmax_l].
Qed.

Lemma max3_ge_m (a b c : R) : b <= max3 a b c.
Proof.
  unfold max3. etransitivity; [apply (Rmax_r a b) | apply Rmax_l].
Qed.

Lemma sqrt_sum_squares_ge_l (u v : R) : 0 <= u -> u <= sqrt (u * u + v * v).
Proof.
  intros Hu. rewrite <- (sqrt_square u) at 1 by exact Hu.
  apply sqrt_le_1_alt. nra.
Qed.

Lemma sqrt_sum_squares_ge_r (u v : R) : 0 <= v -> v <= sqrt (u * u + v * v).
Proof.
  intros Hv. rewrite <- (sqrt_square v) at 1 by exact Hv.
  apply sqrt_le_1_alt. nra.
Qed.

Lemma rectangle_distance_gaps (r1 r2 : rect) :
  r_x r2 - (r_x r1 + r_w r1) <= rectangle_distance r1 r2 /\
  r_x r1 - (r_x r2 + r_w r2) <= rectangle_distance r1 r2 /\
  r_y r2 - (r_y r1 + r_h r1) <= rectangle_distance r1 r2 /\
  r_y r1 - (r_y r2 + r_h r2) <= rectangle_distance r1 r2.
Proof.
  unfold rectangle_distance. cbv zeta.
  pose proof (sqrt_sum_squares_ge_l _
                (max3 (r_y r2 - (r_y r1 + r_h r1))
                      (r_y r1 - (r_y r2 + r_h r2)) 0)
                (max3_nonneg (r_x r2 - (r_x r1 + r_w r1))
                             (r_x r1 - (r_x r2 + r_w r2)))).
  pose proof (sqrt_sum_squares_ge_r
                (max3 (r_x r2 - (r_x r1 + r_w r1))
                      (r_x r1 - (r_x r2 + r_w r2)) 0) _
                (max3_nonneg (r_y r2 - (r_y r1 + r_h r1))
                             (r_y r1 - (r_y r2 + r_h r2)))).
  pose proof (max3_ge_l (r_x r2 - (r_x r1 + r_w r1))
                        (r_x r1 - (r_x r2 + r_w r2)) 0).
  pose proof (max3_ge_m (r_x r2 - (r_x r1 + r_w r1))
                        (r_x r1 - (r_x r2 + r_w r2)) 0).
  pose proof (max3_ge_l (r_y r2 - (r_y r1 + r_h r1))
                        (r_y r1 - (r_y r2 + r_h r2)) 0).
  pose proof (max3_ge_m (r_y r2 - (r_y r1 + r_h r1))
                        (r_y r1 - (r_y r2 + r_h r2)) 0).
  set (dx := max3 (r_x r2 - _) _ 0) in *.
  set (dy := max3 (r_y r2 - _) _ 0) in *.
  lra.
Qed.

(** X4.  [rectangle_distance] is at least the gap between the rectangles
    along either axis, in either direction. *)
Theorem rectangle_distance_ge_gap (r1 r2 : rect) :
  r_x r2 - (r_x r1 + r_w r1) <= rectangle_distance r1 r2 /\
  r_x r1 - (r_x r2 + r_w r2) <= rectangle_distance r1 r2 /\
  r_y r2 - (r_y r1 + r_h r1) <= rectangle_distance r1 r2 /\
  r_y r1 - (r_y r2 + r_h r2) <= rectangle_distance r1 r2.
Proof. apply rectangle_distance_gaps. Qed.

(** ** Constraint evaluator *)

Lemma distance_violation_cons (b : building) (l : layout) :
  distance_violation (b :: l) <->
  (exists c : building,
     In c l /\ rectangle_distance b c < MIN_BUILDING_DISTANCE) \/
  distance_violation l.
Proof.
  split.
  - intros (i & j & bi & bj & Hij & Hi & Hj & Hd).
    destruct j as [| j]; [lia |]. cbn in Hj.
    destruct i as [| i]; cbn in Hi.
    + injection Hi as <-. left. exists bj. split; auto.
      eapply nth_error_In; eauto.
    + right. exists i, j, bi, bj. repeat split; auto. lia.
  - intros [(c & Hc & Hd) | (i & j & bi & bj & Hij & Hi & Hj & Hd)].
    + apply In_nth_error in Hc as (j & Hj).
      exists 0%nat, (S j), b, c. repeat split; auto. lia.
    + exists (S i), (S j), bi, bj. repeat split; auto. lia.
Qed.

Lemma distance_violation_nil : ~ distance_violation [].
Proof.
  intros (i & j & bi & bj & _ & Hi & _). destruct i; discriminate.
Qed.

Lemma distance_violation_snoc (l : layout) (c : building) :
  distance_violation (l ++ [c]) <->
  distance_violation l \/
  exists b : building,
    In b l /\ rectangle_distance b c < MIN_BUILDING_DISTANCE.
Proof.
  induction l as [| b l IH]; cbn [app].
  - split.
    + intros H. apply distance_violation_cons in H as [(x & [] & _) | H].
      now apply distance_violation_nil in H.
    + intros [H | (b & [] & _)]. now apply distance_violation_nil in H.
  - rewrite !distance_violation_cons, IH. split.
    + intros [(x & Hx & Hd) | [H | (x & Hx & Hd)]].
      * apply in_app_iff in Hx as [Hx | [<- | []]].
        -- left. left. now exists x.
        -- right. exists b. split; auto. now left.
      * left. now right.
      * right. exists x. split; auto. now right.
    + intros [[(x & Hx & Hd) | H] | (x & [<- | Hx] & Hd)].
      * left. exists x. split; auto. apply in_app_iff. now left.
      * right. now left.
      * left. exists c. split; auto. apply in_app_iff. right. now left.
      * right. right. now exists x.
Qed.

Lemma zone_violation_snoc (l : layout) (c : building) :
  zone_violation (l ++ [c]) <->
  zone_violation l \/ rectangles_overlap c plaza = true.
Proof.
  unfold zone_violation. split.
  - intros (b & Hb & H). apply in_app_iff in Hb as [Hb | [<- | []]]; eauto.
  - intros [(b & Hb & H) | H].
    + exists b. split; auto. apply in_app_iff. now left.
    + exists c. split; auto. apply in_app_iff. right. now left.
Qed.

Lemma check_snoc_iff (l : layout) (c : building) :
  check_partial_constraints (l ++ [c]) = true <->
  check_partial_constraints l = true /\
  rectangles_overlap c plaza = false /\
  forall b : building, In b l ->
    MIN_BUILDING_DISTANCE <= rectangle_distance b c.
Proof.
  rewrite <- !not_false_iff_true, !check_false_iff,
    zone_violation_snoc, distance_violation_snoc.
  split.
  - intros H. split; [tauto |]. split.
    + destruct (rectangles_overlap c plaza); tauto.
    + intros b Hb.
      destruct (Rle_lt_dec MIN_BUILDING_DISTANCE (rectangle_distance b c))
        as [Hle | Hlt]; auto.
      exfalso. apply H. right. right. now exists b.
  - intros (H1 & H2 & H3) [[Hz | Ho] | [Hd | (b & Hb & Hd)]].
    + apply H1. now left.
    + congruence.
    + apply H1. now right.
    + specialize (H3 b Hb). lra.
Qed.

(** X5.  The check made for a candidate decomposes: the layout with the
    candidate appended is feasible exactly when the layout was feasible, the
    candidate is clear of the Reserved Zone, and the candidate is at least
    [MIN_BUILDING_DISTANCE] from every rectangle already placed. *)
Theorem check_partial_constraints_snoc (l : layout) (c : building) :
  check_partial_constraints (l ++ [c]) = true <->
  check_partial_constraints l = true /\
  rectangles_overlap c plaza = false /\
  forall b : building, In b l ->
    MIN_BUILDING_DISTANCE <= rectangle_distance b c.
Proof. apply check_snoc_iff. Qed.

Lemma zone_violation_perm (l l' : layout) :
  Permutation l l' -> zone_violation l -> zone_violation l'.
Proof.
  intros Hp (b & Hb & H). exists b. split; auto.
  eapply Permutation_in; eauto.
Qed.

Lemma distance_violation_perm (l l' : layout) :
  Permutation l l' -> distance_violation l -> distance_violation l'.
Proof.
  induction 1 as [| x l l' Hp IH | x y l | l l' l'' _ IH1 _ IH2].
  - auto.
  - rewrite !distance_violation_cons.
    intros [(c & Hc & Hd) | H]; [left | right; auto].
    exists c. split; auto. eapply Permutation_in; eauto.
  - rewrite !distance_violation_cons.
    intros [(c & [<- | Hc] & Hd) | [(c & Hc & Hd) | H]].
    + left. exists y. split; [now left |].
      now rewrite rectangle_distance_sym.
    + right. left. now exists c.
    + left. exists c. split; auto. now right.
    + right. now right.
  - auto.
Qed.

(** X6.  [check_partial_constraints] does not depend on the order of the
    rectangles in the list. *)
Theorem check_partial_constraints_perm (l l' : layout) :
  Permutation l l' ->
  check_partial_constraints l = check_partial_constraints l'.
Proof.
  intros Hp.
  assert (Hdir : forall a b : layout, Permutation a b ->
            check_partial_constraints a = false ->
            check_partial_constraints b = false).
  { intros a b Hab H. apply check_false_iff in H. apply check_false_iff.
    destruct H; [left; eapply zone_violation_perm
                | right; eapply distance_violation_perm]; eauto. }
  destruct (check_partial_constraints l) eqn:E1,
           (check_partial_constraints l') eqn:E2; auto.
  - apply (Hdir _ _ (Permutation_sym Hp)) in E2. congruence.
  - apply (Hdir _ _ Hp) in E1. congruence.
Qed.

Lemma check_partial_constraints_perm_witness :
  Permutation [sample_a; sample_b] [sample_b; sample_a] /\
  check_partial_constraints [sample_a; sample_b]
  = check_partial_constraints [sample_b; sample_a].
Proof.
  split; [apply perm_swap |].
  apply (check_partial_constraints_perm [sample_a; sample_b]
           [sample_b; sample_a]).
  apply perm_swap.
Defined.

(** Rectangles at two different positions of a separated layout. *)
Lemma separated_distinct (l : layout) (i j : nat) (bi bj : building) :
  separated l -> i <> j ->
  nth_error l i = Some bi -> nth_error l j = Some bj ->
  MIN_BUILDING_DISTANCE <= rectangle_distance bi bj.
Proof.
  intros Hs Hij Hi Hj.
  destruct (Nat.lt_ge_cases i j) as [H | H].
  - eapply Hs; eauto.
  - rewrite rectangle_distance_sym. eapply (Hs j i); eauto. lia.
Qed.

(** X7.  In a layout accepted by [check_partial_constraints], rectangles at
    two different positions never overlap one another, although the
    function tests overlap only against the Reserved Zone. *)
Theorem check_partial_constraints_no_overlap (l : layout) (i j : nat)
    (bi bj : building) :
  check_partial_constraints l = true -> i <> j ->
  nth_error l i = Some bi -> nth_error l j = Some bj ->
  rectangles_overlap bi bj = false.
Proof.
  intros Hc Hij Hi Hj. apply check_true_iff in Hc as [_ Hs].
  pose proof (separated_distinct l i j bi bj Hs Hij Hi Hj) as Hd.
  destruct (rectangles_overlap bi bj) eqn:E; auto.
  apply rectangles_overlap_share_boundary, rectangle_distance_zero_iff in E.
  unfold MIN_BUILDING_DISTANCE in Hd. lra.
Qed.

Lemma check_partial_constraints_no_overlap_witness :
  check_partial_constraints [sample_a; sample_b] = true /\
  rectangles_overlap sample_a sample_b = false.
Proof.
  split; [exact sample_layout_feasible |].
  apply (check_partial_constraints_no_overlap [sample_a; sample_b]
           0%nat 1%nat sample_a sample_b sample_layout_feasible);
    [discriminate | reflexivity | reflexivity].
Defined.

(** ** Placement search *)

Section SearchExtras.

Variable draws : nat -> R.

Lemma random_building_well_sized (t : btype) (s : rng) :
  well_sized (fst (random_building draws t s)).
Proof. destruct t; reflexivity. Qed.

Lemma generate_layout_drawn (num_a num_b max_attempts : Z) (s : rng)
    (l : layout) :
  fst (generate_layout draws num_a num_b max_attempts s) = Some l ->
  forall b : building, In b l ->
    exists (k : btype) (s0 : rng), b = fst (random_building draws k s0).
Proof.
  intros H. apply generate_layout_some in H as [(s' & H) _].
  apply place_all_some in H as (t & -> & _ & _ & Hdrawn). exact Hdrawn.
Qed.

(** X8.  A returned layout lists [num_a] towers of type A followed by
    [num_b] towers of type B, each of the fixed size of its type. *)
Theorem generate_layout_composition (num_a num_b max_attempts : Z)
    (s : rng) (l : layout) :
  fst (generate_layout draws num_a num_b max_attempts s) = Some l ->
  map b_type l = repeat A (Z.to_nat num_a) ++ repeat B (Z.to_nat num_b) /\
  length l = (Z.to_nat num_a + Z.to_nat num_b)%nat /\
  forall b : building, In b l -> (r_w b, r_h b) = size_of (b_type b).
Proof.
  intros H. pose proof (generate_layout_types _ _ _ _ _ _ H) as Hty.
  split; [exact Hty |]. split.
  - rewrite <- (length_map b_type), Hty. unfold work_list.
    now rewrite length_app, !repeat_length.
  - intros b Hb.
    destruct (generate_layout_drawn _ _ _ _ _ H b Hb) as (k & s0 & ->).
    apply random_building_well_sized.
Qed.

Lemma try_place_zero (t : btype) (l : layout) (s : rng) :
  try_place draws t l 0 s = (None, s).
Proof. reflexivity. Qed.

(** X9.  With an attempt cap of zero or less and at least one item
    requested, [generate_layout] returns [None] without drawing. *)
Theorem generate_layout_no_attempts (num_a num_b max_attempts : Z)
    (s : rng) :
  (max_attempts <= 0)%Z -> (1 <= num_a \/ 1 <= num_b)%Z ->
  generate_layout draws num_a num_b max_attempts s = (None, s).
Proof.
  intros Hm Hn. unfold generate_layout, work_list.
  replace (Z.to_nat max_attempts) with 0%nat by lia.
  destruct (Z.to_nat num_a) as [| na] eqn:Ea.
  - destruct (Z.to_nat num_b) as [| nb] eqn:Eb; [lia |]. reflexivity.
  - reflexivity.
Qed.

(** Every attempt makes two draws. *)
Lemma try_place_rng (t : btype) (l : layout) (attempts : nat) (s : rng) :
  exists k : nat,
    snd (try_place draws t l attempts s) = (s + 2 * k)%nat /\
    (k <= attempts)%nat /\
    (fst (try_place draws t l attempts s) <> None -> (1 <= k)%nat).
Proof.
  revert s. induction attempts as [| n IH]; intros s.
  - exists 0%nat. cbn. repeat split; auto; try lia. congruence.
  - cbn [try_place].
    pose proof (random_building_rng draws t s) as Hs.
    destruct (random_building draws t s) as [cand s1]. cbn in Hs. subst s1.
    destruct (check_partial_constraints (l ++ [cand])).
    + exists 1%nat. cbn. repeat split; lia.
    + destruct (IH (S (S s))) as (k & Hk & Hle & _).
      exists (S k). rewrite Hk. repeat split; lia.
Qed.

Lemma place_all_rng (items : list btype) (max_attempts : nat) :
  forall (l : layout) (s : rng),
  exists k : nat,
    snd (place_all draws items l max_attempts s) = (s + 2 * k)%nat /\
    (k <= max_attempts * length items)%nat /\
    (fst (place_all draws items l max_attempts s) <> None ->
     (length items <= k)%nat).
Proof.
  induction items as [| t items IH]; intros l s.
  - exists 0%nat. cbn. repeat split; lia.
  - cbn [place_all length].
    destruct (try_place_rng t l max_attempts s) as (k1 & Hk1 & Hle1 & Hsome1).
    destruct (try_place draws t l max_attempts s) as [[c |] s1];
      cbn [fst snd] in *.
    + subst s1.
      destruct (IH (l ++ [c]) (s + 2 * k1)%nat) as (k2 & Hk2 & Hle2 & Hsome2).
      exists (k1 + k2)%nat. rewrite Hk2.
      assert (1 <= k1)%nat by (apply Hsome1; discriminate).
      repeat split; try lia. intros Hs. specialize (Hsome2 Hs). lia.
    + exists k1. cbn. repeat split; try lia. congruence.
Qed.

(** X10.  [generate_layout] makes an even number of draws: two for each
    candidate, at most [max_attempts] candidates for each item, and at
    least one candidate for each item when a layout is returned. *)
Theorem generate_layout_draw_count (num_a num_b max_attempts : Z)
    (s : rng) :
  exists k : nat,
    snd (generate_layout draws num_a num_b max_attempts s)
    = (s + 2 * k)%nat /\
    (k <= Z.to_nat max_attempts * (Z.to_nat num_a + Z.to_nat num_b))%nat /\
    match fst (generate_layout draws num_a num_b max_attempts s) with
    | Some _ => (Z.to_nat num_a + Z.to_nat num_b <= k)%nat
    | None => True
    end.
Proof.
  unfold generate_layout.
  destruct (place_all_rng (work_list num_a num_b) (Z.to_nat max_attempts)
              [] s) as (k & Hk & Hle & Hsome).
  assert (Hlen : length (work_list num_a num_b)
                 = (Z.to_nat num_a + Z.to_nat num_b)%nat)
    by (unfold work_list; now rewrite length_app, !repeat_length).
  rewrite Hlen in *.
  destruct (place_all draws _ [] _ s) as [[l |] s1]; cbn [fst snd] in *.
  - exists k. assert (Hk' : (Z.to_nat num_a + Z.to_nat num_b <= k)%nat)
      by (apply Hsome; discriminate).
    destruct (neighbor_check l); cbn; repeat split; auto.
  - exists k. cbn. repeat split; auto.
Qed.

End SearchExtras.

Lemma generate_layout_composition_witness :
  fst (generate_layout sample_draws 1 1 1 0%nat) = Some [sample_a; sample_b] /\
  map b_type [sample_a; sample_b]
  = repeat A (Z.to_nat 1) ++ repeat B (Z.to_nat 1) /\
  length [sample_a; sample_b] = (Z.to_nat 1 + Z.to_nat 1)%nat /\
  forall b : building, In b [sample_a; sample_b] ->
    (r_w b, r_h b) = size_of (b_type b).
Proof.
  assert (Hrun : fst (generate_layout sample_draws 1 1 1 0%nat)
                 = Some [sample_a; sample_b])
    by (rewrite sample_run; reflexivity).
  split; [exact Hrun |].
  exact (generate_layout_composition sample_draws 1%Z 1%Z 1%Z 0%nat
           [sample_a; sample_b] Hrun).
Defined.

Lemma generate_layout_no_attempts_witness :
  (0 <= 0)%Z /\ (1 <= 2 \/ 1 <= 3)%Z /\
  generate_layout sample_draws 2 3 0 0%nat = (None, 0%nat).
Proof.
  assert (H0 : (0 <= 0)%Z) by lia.
  assert (H1 : (1 <= 2 \/ 1 <= 3)%Z) by lia.
  split; [exact H0 |]. split; [exact H1 |].
  exact (generate_layout_no_attempts sample_draws 2%Z 3%Z 0%Z 0%nat H0 H1).
Defined.

(** ** Search and scorer together *)

Lemma feasible_types_apart (l : layout) (a b : building) :
  check_partial_constraints l = true ->
  In a l -> In b l -> b_type a <> b_type b ->
  MIN_BUILDING_DISTANCE <= rectangle_distance a b.
Proof.
  intros Hc Ha Hb Hty. apply check_true_iff in Hc as [_ Hs].
  apply In_nth_error in Ha as (i & Hi). apply In_nth_error in Hb as (j & Hj).
  apply (separated_distinct l i j); auto.
  intros ->. rewrite Hi in Hj. injection Hj as ->. now apply Hty.
Qed.

Lemma in_secondaries (l : layout) (b : building) :
  In b (secondaries l) <-> In b l /\ b_type b = B.
Proof. unfold secondaries. rewrite filter_In, btype_eqb_eq. tauto. Qed.

Lemma in_primaries (l : layout) (a : building) :
  In a (primaries l) <-> In a l /\ b_type a = A.
Proof. unfold primaries. rewrite filter_In, btype_eqb_eq. tauto. Qed.

(** The nearest Secondary rectangle of a Primary one in a feasible layout
    that satisfies the neighbour rule. *)
Lemma nearest_secondary_bounds (l : layout) (a : building) :
  check_partial_constraints l = true -> neighbor_rule l ->
  In a l -> b_type a = A ->
  MIN_BUILDING_DISTANCE <= nearest_secondary_distance a l
  <= NEIGHBOR_DISTANCE.
Proof.
  intros Hc Hn Ha Hta. destruct (Hn a Ha Hta) as (b0 & Hb0 & Htb0 & Hd0).
  unfold nearest_secondary_distance.
  assert (Hin0 : In (rectangle_distance a b0)
                    (map (fun b : building => rectangle_distance a b)
                         (secondaries l)))
    by (apply (in_map (fun b : building => rectangle_distance a b)),
        in_secondaries; auto).
  destruct (map _ (secondaries l)) as [| v vs] eqn:E; [destruct Hin0 |].
  destruct (least_of_spec v vs) as [Hin Hle]. split.
  - assert (Hin' : In (least_of (v :: vs))
                      (map (fun b : building => rectangle_distance a b)
                           (secondaries l)))
      by (rewrite E; exact Hin).
    apply in_map_iff in Hin' as (b & Heq & Hb). rewrite <- Heq.
    apply in_secondaries in Hb as [Hb Htb].
    apply (feasible_types_apart l); auto. congruence.
  - etransitivity; [apply (Hle _ Hin0) | exact Hd0].
Qed.

Section SearchAndScore.

Variable draws : nat -> R.

(** X11.  In a returned layout the nearest Secondary rectangle of every
    Primary one is between [MIN_BUILDING_DISTANCE] and [NEIGHBOR_DISTANCE]
    away, so the clamp of the proximity reward never acts on it. *)
Theorem generate_layout_nearest_secondary (num_a num_b max_attempts : Z)
    (s : rng) (l : layout) (a : building) :
  fst (generate_layout draws num_a num_b max_attempts s) = Some l ->
  In a l -> b_type a = A ->
  MIN_BUILDING_DISTANCE <= nearest_secondary_distance a l
  <= NEIGHBOR_DISTANCE /\
  proximity_reward (nearest_secondary_distance a l)
  = NEIGHBOR_DISTANCE - nearest_secondary_distance a l.
Proof.
  intros H Ha Hta.
  pose proof (generate_layout_feasible _ _ _ _ _ _ H) as Hc.
  apply generate_layout_some in H as [_ Hn].
  apply neighbor_check_true_iff in Hn.
  pose proof (nearest_secondary_bounds l a Hc Hn Ha Hta) as Hb.
  split; [exact Hb |]. unfold proximity_reward. apply Rmax_right. lra.
Qed.

Lemma generate_layout_has_secondary (num_a num_b max_attempts : Z)
    (s : rng) (l : layout) :
  fst (generate_layout draws num_a num_b max_attempts s) = Some l ->
  (1 <= num_b)%Z -> secondaries l <> [].
Proof.
  intros H Hb. apply generate_layout_types in H. unfold work_list in H.
  destruct (Z.to_nat num_b) as [| n] eqn:E; [lia |].
  assert (Hin : In B (map b_type l))
    by (rewrite H; apply in_app_iff; right; now left).
  apply in_map_iff in Hin as (b & Hbt & Hbl).
  apply secondaries_nonempty. now exists b.
Qed.

(** X12.  [compute_score] does not raise on a layout returned by
    [generate_layout] when at least one Secondary item was requested: it
    returns the weighted sum. *)
Theorem compute_score_of_generated (num_a num_b max_attempts : Z)
    (s : rng) (l : layout) :
  fst (generate_layout draws num_a num_b max_attempts s) = Some l ->
  (1 <= num_b)%Z ->
  compute_score l = Ok (score_spec l).
Proof.
  intros H Hb. apply compute_score_with_secondary.
  eapply generate_layout_has_secondary; eauto.
Qed.

End SearchAndScore.

Lemma generate_layout_nearest_secondary_witness :
  fst (generate_layout sample_draws 1 1 1 0%nat) = Some [sample_a; sample_b] /\
  In sample_a [sample_a; sample_b] /\ b_type sample_a = A /\
  MIN_BUILDING_DISTANCE
  <= nearest_secondary_distance sample_a [sample_a; sample_b]
  <= NEIGHBOR_DISTANCE /\
  proximity_reward (nearest_secondary_distance sample_a [sample_a; sample_b])
  = NEIGHBOR_DISTANCE - nearest_secondary_distance sample_a [sample_a; sample_b].
Proof.
  assert (Hrun : fst (generate_layout sample_draws 1 1 1 0%nat)
                 = Some [sample_a; sample_b])
    by (rewrite sample_run; reflexivity).
  assert (Hin : In sample_a [sample_a; sample_b]) by (now left).
  split; [exact Hrun |]. split; [exact Hin |]. split; [reflexivity |].
  exact (generate_layout_nearest_secondary sample_draws 1%Z 1%Z 1%Z 0%nat
           [sample_a; sample_b] sample_a Hrun Hin eq_refl).
Defined.

Lemma compute_score_of_generated_witness :
  fst (generate_layout sample_draws 1 1 1 0%nat) = Some [sample_a; sample_b] /\
  (1 <= 1)%Z /\
  compute_score [sample_a; sample_b] = Ok (score_spec [sample_a; sample_b]).
Proof.
  assert (Hrun : fst (generate_layout sample_draws 1 1 1 0%nat)
                 = Some [sample_a; sample_b])
    by (rewrite sample_run; reflexivity).
  assert (H1 : (1 <= 1)%Z) by lia.
  split; [exact Hrun |]. split; [exact H1 |].
  exact (compute_score_of_generated sample_draws 1%Z 1%Z 1%Z 0%nat
           [sample_a; sample_b] Hrun H1).
Defined.

Lemma sum_of_map_bounds {X : Type} (f : X -> R) (l : list X) (lo hi : R) :
  (forall a : X, In a l -> lo <= f a <= hi) ->
  INR (length l) * lo <= sum_of (map f l) <= INR (length l) * hi.
Proof.
  induction l as [| a l IH]; intros H.
  - cbn. lra.
  - cbn [map sum_of fold_right length]. rewrite S_INR.
    assert (Ha : lo <= f a <= hi) by (apply H; now left).
    assert (Hl : INR (length l) * lo <= sum_of (map f l)
                 <= INR (length l) * hi)
      by (apply IH; intros b Hb; apply H; now right).
    unfold sum_of in Hl. lra.
Qed.

Lemma total_area_by_type (l : layout) :
  (forall b : building, In b l -> well_sized b) ->
  total_area_spec l
  = 600 * INR (length (primaries l)) + 400 * INR (length (secondaries l)).
Proof.
  unfold total_area_spec, primaries, secondaries.
  induction l as [| b l IH]; intros H.
  - cbn. lra.
  - assert (Hb : well_sized b) by (apply H; now left).
    assert (Hl : forall c : building, In c l -> well_sized c)
      by (intros c Hc; apply H; now right).
    specialize (IH Hl). unfold sum_of in *.
    cbn [map fold_right filter]. unfold well_sized in Hb.
    destruct (b_type b); cbn [btype_eqb size_of] in *;
      unfold TOWER_A_SIZE, TOWER_B_SIZE in Hb; injection Hb as -> ->;
      cbn [length]; rewrite S_INR, IH; lra.
Qed.

Lemma kinds_count (l : layout) (na nb : nat) :
  map b_type l = repeat A na ++ repeat B nb ->
  length (primaries l) = na /\ length (secondaries l) = nb.
Proof.
  unfold primaries, secondaries. revert l.
  induction na as [| na IHa]; cbn [repeat app].
  - induction nb as [| nb IHb]; intros l H.
    + destruct l; [now split | discriminate].
    + destruct l as [| b l]; [discriminate |].
      cbn [map repeat] in H. injection H as Hb Hl.
      destruct (IHb l Hl) as [H1 H2].
      cbn [filter]. rewrite Hb. cbn [btype_eqb length]. now rewrite H1, H2.
  - intros l H. destruct l as [| a l]; [discriminate |].
    cbn [map] in H. injection H as Ha Hl.
    destruct (IHa l Hl) as [H1 H2].
    cbn [filter]. rewrite Ha. cbn [btype_eqb length]. now rewrite H1, H2.
Qed.

Lemma extent_bounds (v : R) (l : list R) (lo hi : R) :
  (forall u : R, In u (v :: l) -> lo <= u <= hi) ->
  0 <= greatest_of (v :: l) - least_of (v :: l) <= hi - lo.
Proof.
  intros H.
  destruct (least_of_spec v l) as [Hin1 Hle1].
  destruct (greatest_of_spec v l) as [Hin2 Hle2].
  pose proof (H _ Hin1). pose proof (H _ Hin2).
  pose proof (Hle1 _ Hin2). lra.
Qed.

Lemma random_building_origin (draws : nat -> R) (t : btype) (s : rng) :
  unit_draws draws ->
  10 <= r_x (fst (random_building draws t s)) <= 170 /\
  10 <= r_y (fst (random_building draws t s)) <= 110.
Proof.
  intros Hu. pose proof (Hu s). pose proof (Hu (S s)).
  destruct t; cbn; unfold BOUNDARY_BUFFER, SITE_WIDTH, SITE_HEIGHT; nra.
Qed.

Lemma spread_penalty_bounds (l : layout) :
  l <> [] ->
  (forall b : building, In b l ->
     10 <= r_x b <= 170 /\ 10 <= r_y b <= 110) ->
  0 <= spread_penalty_spec l <= 260.
Proof.
  intros Hne H. unfold spread_penalty_spec.
  destruct l as [| b l]; [congruence |]. cbn [map].
  assert (Hx : 0 <= greatest_of (r_x b :: map (fun b : building => r_x b) l)
               - least_of (r_x b :: map (fun b : building => r_x b) l)
               <= 170 - 10).
  { apply extent_bounds. intros u Hu.
    change (In u (map (fun b : building => r_x b) (b :: l))) in Hu.
    apply in_map_iff in Hu as (c & <- & Hc). now apply H. }
  assert (Hy : 0 <= greatest_of (r_y b :: map (fun b : building => r_y b) l)
               - least_of (r_y b :: map (fun b : building => r_y b) l)
               <= 110 - 10).
  { apply extent_bounds. intros u Hu.
    change (In u (map (fun b : building => r_y b) (b :: l))) in Hu.
    apply in_map_iff in Hu as (c & <- & Hc). now apply H. }
  lra.
Qed.

Lemma proximity_score_bounds (l : layout) :
  check_partial_constraints l = true -> neighbor_rule l ->
  0 <= proximity_score_spec l <= INR (length (primaries l)) * 45.
Proof.
  intros Hc Hn. unfold proximity_score_spec.
  rewrite <- (Rmult_0_r (INR (length (primaries l)))) at 1.
  apply sum_of_map_bounds. intros a Ha. apply in_primaries in Ha as [Ha Hta].
  pose proof (nearest_secondary_bounds l a Hc Hn Ha Hta) as Hb.
  unfold MIN_BUILDING_DISTANCE, NEIGHBOR_DISTANCE in *.
  rewrite Rmax_right by lra. lra.
Qed.

Lemma generated_score_spec_bounds (draws : nat -> R)
    (num_a num_b max_attempts : Z) (s : rng) (l : layout) :
  unit_draws draws ->
  fst (generate_layout draws num_a num_b max_attempts s) = Some l ->
  (1 <= num_b)%Z ->
  20 * (INR (Z.to_nat num_a) + INR (Z.to_nat num_b)) +
  0.03 * (600 * INR (Z.to_nat num_a) + 400 * INR (Z.to_nat num_b)) -
  0.15 * 260 <= score_spec l /\
  score_spec l <=
  20 * (INR (Z.to_nat num_a) + INR (Z.to_nat num_b)) +
  0.03 * (600 * INR (Z.to_nat num_a) + 400 * INR (Z.to_nat num_b)) +
  3.0 * (45 * INR (Z.to_nat num_a)).
Proof.
  intros Hu H Hb.
  pose proof (generate_layout_has_secondary _ _ _ _ _ _ H Hb) as Hsec.
  pose proof (generate_layout_feasible _ _ _ _ _ _ H) as Hc.
  pose proof (generate_layout_types _ _ _ _ _ _ H) as Hty.
  pose proof (generate_layout_drawn _ _ _ _ _ _ H) as Hdrawn.
  apply generate_layout_some in H as [_ Hn].
  apply neighbor_check_true_iff in Hn.
  destruct (kinds_count l _ _ Hty) as [Hna Hnb].
  assert (Hlen : INR (length l)
                 = INR (Z.to_nat num_a) + INR (Z.to_nat num_b)).
  { rewrite <- (length_map b_type), Hty. unfold work_list.
    now rewrite length_app, !repeat_length, plus_INR. }
  assert (Harea : total_area_spec l
                  = 600 * INR (Z.to_nat num_a) + 400 * INR (Z.to_nat num_b)).
  { rewrite total_area_by_type, Hna, Hnb; auto.
    intros b Hbl. destruct (Hdrawn b Hbl) as (k & s0 & ->).
    apply random_building_well_sized. }
  pose proof (proximity_score_bounds l Hc Hn) as Hprox. rewrite Hna in Hprox.
  assert (Hspread : 0 <= spread_penalty_spec l <= 260).
  { apply spread_penalty_bounds.
    - intros ->. now apply Hsec.
    - intros b Hbl. destruct (Hdrawn b Hbl) as (k & s0 & ->).
      now apply random_building_origin. }
  unfold score_spec. rewrite Hlen, Harea. lra.
Qed.

(** X13.  The score of a layout returned by [generate_layout] (at least one
    Secondary item requested, draws in the unit interval) lies between
    [20 n + 0.03 area - 0.15 * 260] and [20 n + 0.03 area + 3.0 * 45 num_a],
    where [n = num_a + num_b] and [area = 600 num_a + 400 num_b]. *)
Theorem generated_score_bounds (draws : nat -> R)
    (num_a num_b max_attempts : Z) (s : rng) (l : layout) :
  unit_draws draws ->
  fst (generate_layout draws num_a num_b max_attempts s) = Some l ->
  (1 <= num_b)%Z ->
  exists score : R,
    compute_score l = Ok score /\
    20 * (INR (Z.to_nat num_a) + INR (Z.to_nat num_b)) +
    0.03 * (600 * INR (Z.to_nat num_a) + 400 * INR (Z.to_nat num_b)) -
    0.15 * 260 <= score /\
    score <=
    20 * (INR (Z.to_nat num_a) + INR (Z.to_nat num_b)) +
    0.03 * (600 * INR (Z.to_nat num_a) + 400 * INR (Z.to_nat num_b)) +
    3.0 * (45 * INR (Z.to_nat num_a)).
Proof.
  intros Hu H Hb. exists (score_spec l). split.
  - apply compute_score_with_secondary.
    eapply generate_layout_has_secondary; eauto.
  - eapply generated_score_spec_bounds; eauto.
Qed.

Lemma generated_score_bounds_witness :
  unit_draws sample_draws /\
  fst (generate_layout sample_draws 1 1 1 0%nat) = Some [sample_a; sample_b] /\
  (1 <= 1)%Z /\
  exists score : R,
    compute_score [sample_a; sample_b] = Ok score /\
    20 * (INR (Z.to_nat 1) + INR (Z.to_nat 1)) +
    0.03 * (600 * INR (Z.to_nat 1) + 400 * INR (Z.to_nat 1)) -
    0.15 * 260 <= score /\
    score <=
    20 * (INR (Z.to_nat 1) + INR (Z.to_nat 1)) +
    0.03 * (600 * INR (Z.to_nat 1) + 400 * INR (Z.to_nat 1)) +
    3.0 * (45 * INR (Z.to_nat 1)).
Proof.
  assert (Hrun : fst (generate_layout sample_draws 1 1 1 0%nat)
                 = Some [sample_a; sample_b])
    by (rewrite sample_run; reflexivity).
  assert (H1 : (1 <= 1)%Z) by lia.
  split; [exact sample_unit_draws |]. split; [exact Hrun |].
  split; [exact H1 |].
  exact (generated_score_bounds sample_draws 1%Z 1%Z 1%Z 0%nat
           [sample_a; sample_b] sample_unit_draws Hrun H1).
Defined.

(** ** Visualization bookkeeping *)

Lemma draw_building_fields (st : vis) (b : building) :
  a_count (draw_building st b)
  = (a_count st + length (primaries [b]))%nat /\
  b_count (draw_building st b)
  = (b_count st + length (secondaries [b]))%nat /\
  built_area (draw_building st b) = built_area st + r_w b * r_h b /\
  map d_rect (artists (draw_building st b))
  = map d_rect (artists st) ++ [b_rect b].
Proof.
  unfold draw_building, primaries, secondaries. cbn [filter].
  destruct (b_type b); cbn [btype_eqb a_count b_count built_area artists length];
    rewrite map_app; repeat split; cbn; lia.
Qed.

Lemma kinds_partition (l : layout) :
  (length (primaries l) + length (secondaries l))%nat = length l.
Proof.
  unfold primaries, secondaries. induction l as [| b l IH]; [reflexivity |].
  cbn [filter]. destruct (b_type b); cbn [btype_eqb length]; lia.
Qed.

Lemma visualize_fold (l : layout) :
  forall st : vis,
    a_count (fold_left draw_building l st)
    = (a_count st + length (primaries l))%nat /\
    b_count (fold_left draw_building l st)
    = (b_count st + length (secondaries l))%nat /\
    built_area (fold_left draw_building l st)
    = fold_left Rplus (map (fun b : building => r_w b * r_h b) l)
                (built_area st) /\
    map d_rect (artists (fold_left draw_building l st))
    = map d_rect (artists st) ++ map b_rect l.
Proof.
  induction l as [| b l IH]; intros st.
  - cbn. rewrite app_nil_r. repeat split; lia.
  - cbn [fold_left map].
    destruct (IH (draw_building st b)) as (H1 & H2 & H3 & H4).
    destruct (draw_building_fields st b) as (F1 & F2 & F3 & F4).
    rewrite H1, H2, H3, H4, F1, F2, F3, F4, <- app_assoc.
    unfold primaries, secondaries. cbn [filter app].
    repeat split; destruct (b_type b); cbn [btype_eqb length]; lia.
Qed.

(** X14.  After the drawing loop of [visualize_layout], the two counters
    are the numbers of type-A and of other towers and add up to the number
    of buildings, [built_area] is the sum that [compute_score] calls
    [total_area], and one patch was added per building, in order. *)
Theorem visualize_loop_summary (l : layout) :
  a_count (visualize_loop l) = length (primaries l) /\
  b_count (visualize_loop l) = length (secondaries l) /\
  (a_count (visualize_loop l) + b_count (visualize_loop l))%nat = length l /\
  built_area (visualize_loop l)
  = py_sum (map (fun b : building => r_w b * r_h b) l) /\
  map d_rect (artists (visualize_loop l)) = map b_rect l.
Proof.
  unfold visualize_loop.
  destruct (visualize_fold l {| a_count := 0; b_count := 0; built_area := 0;
                                artists := [] |}) as (H1 & H2 & H3 & H4).
  cbn [a_count b_count built_area artists map app] in *.
  rewrite H1, H2, H3, H4. repeat split; auto.
  cbn [Nat.add]. apply kinds_partition.
Qed.

Lemma decimal_inj (n m : nat) : decimal n = decimal m -> n = m.
Proof.
  unfold decimal. intros H. apply DecimalNat.Unsigned.to_uint_inj.
  assert (E : Some (Nat.to_uint n) = Some (Nat.to_uint m))
    by (rewrite <- !DecimalString.NilEmpty.usu, H; reflexivity).
  now injection E.
Qed.

Lemma label_a_inj (n m : nat) :
  String.append "A" (decimal n) = String.append "A" (decimal m) -> n = m.
Proof. cbn. intros H. injection H as H. now apply decimal_inj. Qed.

Lemma label_b_inj (n m : nat) :
  String.append "B" (decimal n) = String.append "B" (decimal m) -> n = m.
Proof. cbn. intros H. injection H as H. now apply decimal_inj. Qed.

Lemma label_a_b (n m : nat) :
  String.append "A" (decimal n) <> String.append "B" (decimal m).
Proof. cbn. intros H. discriminate. Qed.

(** The labels drawn so far are distinct and numbered up to the counters;
    one more building keeps it so. *)
Lemma draw_labels_fold (l : layout) :
  forall st : vis,
    NoDup (map d_label (artists st)) ->
    (forall x : String.string, In x (map d_label (artists st)) ->
       exists k : nat,
         (1 <= k <= a_count st /\ x = String.append "A" (decimal k))%nat \/
         (1 <= k <= b_count st /\ x = String.append "B" (decimal k))%nat) ->
    NoDup (map d_label (artists (fold_left draw_building l st))).
Proof.
  induction l as [| b l IH]; intros st Hnd Hnum; [exact Hnd |].
  cbn [fold_left]. apply IH; unfold draw_building;
    destruct (btype_eqb (b_type b) A);
    cbn [a_count b_count artists]; rewrite map_app; cbn [map d_label].
  - eapply Permutation_NoDup; [apply Permutation_cons_append |].
    constructor; auto. intros Hin.
    destruct (Hnum _ Hin) as (k & [[Hk E] | [Hk E]]).
    + apply label_a_inj in E. lia.
    + now apply label_a_b in E.
  - eapply Permutation_NoDup; [apply Permutation_cons_append |].
    constructor; auto. intros Hin.
    destruct (Hnum _ Hin) as (k & [[Hk E] | [Hk E]]).
    + symmetry in E. now apply label_a_b in E.
    + apply label_b_inj in E. lia.
  - intros x Hx. apply in_app_iff in Hx as [Hx | [<- | []]].
    + destruct (Hnum _ Hx) as (k & [[Hk E] | [Hk E]]);
        exists k; [left | right]; split; auto; lia.
    + exists (a_count st + 1)%nat. left. split; auto. lia.
  - intros x Hx. apply in_app_iff in Hx as [Hx | [<- | []]].
    + destruct (Hnum _ Hx) as (k & [[Hk E] | [Hk E]]);
        exists k; [left | right]; split; auto; lia.
    + exists (b_count st + 1)%nat. right. split; auto. lia.
Qed.

(** X15.  The labels that [visualize_layout] writes on the buildings
    ("A1", "A2", ..., "B1", "B2", ...) are pairwise distinct. *)
Theorem visualize_labels_distinct (l : layout) :
  NoDup (map d_label (artists (visualize_loop l))).
Proof.
  unfold visualize_loop. apply draw_labels_fold; cbn.
  - constructor.
  - intros x [].
Qed.

(** The labels of the sample layout. *)
Example sample_labels :
  map d_label (artists (visualize_loop [sample_a; sample_b; sample_b_at 125]))
  = ["A1"; "B1"; "B2"].
Proof. reflexivity. Qed.

(** ** Generate and select best layouts *)

(** X16.  The test [if layout:] of the driver accepts every layout that
    [generate_layout] returns when at least one item is requested; with no
    item requested the returned empty layout is treated like [None]. *)
Theorem truthy_generate_layout (draws : nat -> R)
    (num_a num_b max_attempts : Z) (s : rng) :
  ((1 <= num_a \/ 1 <= num_b)%Z ->
   (truthy (fst (generate_layout draws num_a num_b max_attempts s)) = true
    <-> fst (generate_layout draws num_a num_b max_attempts s) <> None)) /\
  ((num_a <= 0)%Z -> (num_b <= 0)%Z ->
   fst (generate_layout draws num_a num_b max_attempts s) = Some [] /\
   truthy (fst (generate_layout draws num_a num_b max_attempts s)) = false).
Proof.
  split.
  - intros Hn.
    destruct (fst (generate_layout draws num_a num_b max_attempts s))
      as [l |] eqn:E; cbn.
    + pose proof (generate_layout_types _ _ _ _ _ _ E) as Hty.
      apply (f_equal (@length btype)) in Hty. unfold work_list in Hty.
      rewrite length_map, length_app, !repeat_length in Hty.
      destruct l as [| b l]; [cbn in Hty; lia |].
      split; [discriminate | reflexivity].
    + split; [discriminate | congruence].
  - intros Ha Hb. unfold generate_layout, work_list.
    replace (Z.to_nat num_a) with 0%nat by lia.
    replace (Z.to_nat num_b) with 0%nat by lia.
    split; reflexivity.
Qed.

Lemma truthy_generate_layout_witness :
  ((1 <= 1 \/ 1 <= 1)%Z /\
   (truthy (fst (generate_layout sample_draws 1 1 1 0%nat)) = true
    <-> fst (generate_layout sample_draws 1 1 1 0%nat) <> None)) /\
  ((0 <= 0)%Z /\
   fst (generate_layout sample_draws 0 0 1 0%nat) = Some [] /\
   truthy (fst (generate_layout sample_draws 0 0 1 0%nat)) = false).
Proof.
  assert (H1 : (1 <= 1 \/ 1 <= 1)%Z) by lia.
  assert (H0 : (0 <= 0)%Z) by lia.
  split.
  - split; [exact H1 |].
    exact (proj1 (truthy_generate_layout sample_draws 1%Z 1%Z 1%Z 0%nat) H1).
  - split; [exact H0 |].
    exact (proj2 (truthy_generate_layout sample_draws 0%Z 0%Z 1%Z 0%nat)
             H0 H0).
Defined.

Lemma insert_desc_perm (e : scored) (l : list scored) :
  Permutation (insert_desc e l) (e :: l).
Proof.
  induction l as [| y ys IH]; cbn [insert_desc]; [reflexivity |].
  destruct (Rltb (fst e) (fst y)); [| reflexivity].
  rewrite IH. apply perm_swap.
Qed.

Lemma sort_desc_perm (l : list scored) : Permutation (sort_desc l) l.
Proof.
  induction l as [| e l IH]; [reflexivity |].
  cbn [sort_desc fold_right]. rewrite insert_desc_perm.
  now apply perm_skip.
Qed.

Lemma insert_desc_sorted (e : scored) (l : list scored) :
  StronglySorted (fun a b : scored => fst b <= fst a) l ->
  StronglySorted (fun a b : scored => fst b <= fst a) (insert_desc e l).
Proof.
  induction 1 as [| y ys Hs IH Hall]; cbn [insert_desc].
  - repeat constructor.
  - destruct (Rltb (fst e) (fst y)) eqn:E.
    + apply Rltb_true_iff in E. constructor; auto.
      eapply Permutation_Forall; [symmetry; apply insert_desc_perm |].
      constructor; auto. lra.
    + apply Rltb_false_iff in E. constructor.
      * now constructor.
      * constructor; auto.
        eapply Forall_impl; [| exact Hall]. cbn. intros a Ha. lra.
Qed.

Lemma sort_desc_sorted (l : list scored) :
  StronglySorted (fun a b : scored => fst b <= fst a) (sort_desc l).
Proof.
  induction l as [| e l IH]; [constructor |].
  cbn [sort_desc fold_right]. now apply insert_desc_sorted.
Qed.

Lemma strongly_sorted_descending (l : list scored) :
  StronglySorted (fun a b : scored => fst b <= fst a) l -> descending l.
Proof.
  induction 1 as [| y ys Hs IH Hall]; intros i j ei ej Hij Hi Hj.
  - destruct i; discriminate.
  - destruct i as [| i], j as [| j]; cbn in Hi, Hj; try lia.
    + injection Hi as <-. injection Hj as <-. lra.
    + injection Hi as <-. apply nth_error_In in Hj.
      rewrite Forall_forall in Hall. now apply Hall.
    + apply (IH i j); auto. lia.
Qed.

(** Entries of equal score keep their order: the sort is stable. *)
Lemma insert_desc_stable (v : R) (e : scored) (l : list scored) :
  filter (fun x : scored => if Req_dec_T (fst x) v then true else false)
         (insert_desc e l)
  = filter (fun x : scored => if Req_dec_T (fst x) v then true else false)
           (e :: l).
Proof.
  induction l as [| y ys IH]; cbn [insert_desc]; [reflexivity |].
  destruct (Rltb (fst e) (fst y)) eqn:E; [| reflexivity].
  apply Rltb_true_iff in E. cbn [filter] in *. rewrite IH.
  destruct (Req_dec_T (fst e) v), (Req_dec_T (fst y) v); auto. lra.
Qed.

Lemma sort_desc_stable (v : R) (l : list scored) :
  filter (fun x : scored => if Req_dec_T (fst x) v then true else false)
         (sort_desc l)
  = filter (fun x : scored => if Req_dec_T (fst x) v then true else false) l.
Proof.
  induction l as [| e l IH]; [reflexivity |].
  cbn [sort_desc fold_right]. rewrite insert_desc_stable.
  cbn [filter]. fold (sort_desc l). now rewrite IH.
Qed.

Section DriverFacts.

Variable draws : nat -> R.

(** The loop never raises, and whatever holds of every scored layout that
    the search can return holds of every entry it collects. *)
Lemma collect_layouts_inv (P : scored -> Prop) :
  (forall (s : rng) (l : layout),
     fst (generate_layout draws 2 3 2500 s) = Some l ->
     P (score_spec l, l)) ->
  forall (trials : nat) (acc : list scored) (s : rng),
    Forall P acc ->
    exists (found : list scored) (s' : rng),
      collect_layouts draws trials acc s = (Ok found, s') /\
      Forall P found /\
      (length found <= length acc + trials)%nat.
Proof.
  intros HP. induction trials as [| n IH]; intros acc s Hacc.
  - exists acc, s. cbn. repeat split; auto. lia.
  - cbn [collect_layouts].
    destruct (generate_layout draws 2 3 2500 s) as [r s1] eqn:E.
    assert (Hr : fst (generate_layout draws 2 3 2500 s) = r)
      by (now rewrite E).
    destruct r as [l |].
    + destruct (truthy (Some l)).
      * rewrite (compute_score_with_secondary l)
          by (eapply generate_layout_has_secondary; [exact Hr | lia]).
        destruct (IH (acc ++ [(score_spec l, l)]) s1)
          as (found & s' & Hrun & Hall & Hlen).
        { apply Forall_app. split; auto. constructor; auto.
          now apply (HP s). }
        exists found, s'. rewrite length_app in Hlen. cbn in Hlen.
        repeat split; auto. lia.
      * destruct (IH acc s1 Hacc) as (found & s' & Hrun & Hall & Hlen).
        exists found, s'. repeat split; auto. lia.
    + destruct (IH acc s1 Hacc) as (found & s' & Hrun & Hall & Hlen).
      exists found, s'. repeat split; auto. lia.
Qed.

(** X17.  The collecting loop of the driver never raises: [compute_score]
    succeeds on every layout it is given.  It keeps at most one entry per
    trial, and every entry pairs a feasible layout of two A and three B
    towers that satisfies the neighbour rule with its score. *)
Theorem collect_layouts_ok (trials : nat) (s : rng) :
  exists (found : list scored) (s' : rng),
    collect_layouts draws trials [] s = (Ok found, s') /\
    (length found <= trials)%nat /\
    forall (score : R) (l : layout), In (score, l) found ->
      compute_score l = Ok score /\
      map b_type l = [A; A; B; B; B] /\
      check_partial_constraints l = true /\
      neighbor_rule l.
Proof.
  destruct (collect_layouts_inv
              (fun e : scored =>
                 compute_score (snd e) = Ok (fst e) /\
                 map b_type (snd e) = [A; A; B; B; B] /\
                 check_partial_constraints (snd e) = true /\
                 neighbor_rule (snd e)))
    with (trials := trials) (acc := @nil scored) (s := s)
    as (found & s' & Hrun & Hall & Hlen).
  - intros s0 l H. cbn [fst snd]. split; [| split; [| split]].
    + apply compute_score_with_secondary.
      eapply generate_layout_has_secondary; [exact H | lia].
    + exact (generate_layout_types _ _ _ _ _ _ H).
    + exact (generate_layout_feasible _ _ _ _ _ _ H).
    + apply neighbor_check_true_iff. now apply generate_layout_some in H.
  - constructor.
  - exists found, s'. split; [exact Hrun |]. split; [exact Hlen |].
    intros score l Hin. rewrite Forall_forall in Hall.
    exact (Hall _ Hin).
Qed.

(** X18.  [top_layouts] never raises.  It holds the three best entries of
    the collected layouts, or all of them when fewer were found: they are in
    non-increasing order of score, and no collected entry left out scores
    more than one that was kept. *)
Theorem top_layouts_best (s : rng) :
  exists (found top : list scored) (s' : rng),
    collect_layouts draws 700 [] s = (Ok found, s') /\
    top_layouts draws s = (Ok top, s') /\
    length top = Nat.min 3 (length found) /\
    descending top /\
    (forall t : scored, In t top -> In t found) /\
    (forall t e : scored, In t top -> In e found ->
       In e top \/ fst e <= fst t).
Proof.
  destruct (collect_layouts_inv (fun _ => True) (fun _ _ _ => I)
              700 [] s (Forall_nil _)) as (found & s' & Hrun & _ & _).
  exists found, (firstn 3 (sort_desc found)), s'.
  pose proof (sort_desc_perm found) as Hperm.
  pose proof (strongly_sorted_descending _ (sort_desc_sorted found)) as Hdesc.
  split; [exact Hrun |]. split; [unfold top_layouts; now rewrite Hrun |].
  split; [| split; [| split]].
  - rewrite length_firstn. now rewrite (Permutation_length Hperm).
  - intros i j ei ej Hij Hi Hj. rewrite nth_error_firstn in Hi, Hj.
    destruct (i <? 3)%nat; [| discriminate].
    destruct (j <? 3)%nat; [| discriminate].
    now apply (Hdesc i j).
  - intros t Ht. apply (Permutation_in _ Hperm).
    rewrite <- (firstn_skipn 3 (sort_desc found)).
    apply in_app_iff. now left.
  - intros t e Ht He.
    apply (Permutation_in _ (Permutation_sym Hperm)) in He.
    apply In_nth_error in He as (j & Hj).
    apply In_nth_error in Ht as (i & Hi).
    rewrite nth_error_firstn in Hi.
    destruct (i <? 3)%nat eqn:Ei; [| discriminate].
    apply Nat.ltb_lt in Ei.
    destruct (j <? 3)%nat eqn:Ej.
    + left. apply (nth_error_In _ j). rewrite nth_error_firstn, Ej. exact Hj.
    + right. apply Nat.ltb_ge in Ej. apply (Hdesc i j); auto. lia.
Qed.

End DriverFacts.

(** ** The retry loop *)

(** X19.  The inner loop of [generate_layout] commits the first feasible
    candidate: when it places a rectangle after [k] rejected candidates,
    that rectangle is candidate number [k], it passed the check and the
    [k] before it failed it; when it gives up, all [max_attempts]
    candidates failed the check.  Candidate [i] uses draws [2 i] and
    [2 i + 1] counted from the cursor. *)
Theorem try_place_first_feasible (draws : nat -> R) (t : btype)
    (l : layout) (attempts : nat) (s : rng) :
  match try_place draws t l attempts s with
  | (Some c, s') =>
      exists k : nat,
        (k < attempts)%nat /\ s' = (s + 2 * (k + 1))%nat /\
        c = fst (random_building draws t (s + 2 * k)%nat) /\
        check_partial_constraints (l ++ [c]) = true /\
        forall i : nat, (i < k)%nat ->
          check_partial_constraints
            (l ++ [fst (random_building draws t (s + 2 * i)%nat)]) = false
  | (None, s') =>
      s' = (s + 2 * attempts)%nat /\
      forall i : nat, (i < attempts)%nat ->
        check_partial_constraints
          (l ++ [fst (random_building draws t (s + 2 * i)%nat)]) = false
  end.
Proof.
  revert s. induction attempts as [| n IH]; intros s.
  - cbn. split; [lia | intros i Hi; lia].
  - cbn [try_place].
    pose proof (random_building_rng draws t s) as Hs.
    destruct (random_building draws t s) as [cand s1] eqn:E.
    cbn in Hs. subst s1.
    assert (Hc : cand = fst (random_building draws t (s + 2 * 0)%nat))
      by (replace (s + 2 * 0)%nat with s by lia; now rewrite E).
    destruct (check_partial_constraints (l ++ [cand])) eqn:C.
    + exists 0%nat. repeat split; auto; lia.
    + specialize (IH (S (S s))).
      assert (Hshift : forall i : nat,
                (S (S s) + 2 * i)%nat = (s + 2 * S i)%nat) by (intros; lia).
      destruct (try_place draws t l n (S (S s))) as [[c |] s'].
      * destruct IH as (k & Hk & Hs' & Hck & Hok & Hrej).
        exists (S k). rewrite Hshift in Hck.
        split; [lia |]. split; [lia |]. split; [exact Hck |].
        split; [exact Hok |]. intros i Hi. destruct i as [| i].
        -- now rewrite <- Hc.
        -- rewrite <- Hshift. apply Hrej. lia.
      * destruct IH as (Hs' & Hrej). split; [lia |].
        intros i Hi. destruct i as [| i].
        -- now rewrite <- Hc.
        -- rewrite <- Hshift. apply Hrej. lia.
Qed.

(** ** Success at the first attempt *)

Lemma try_place_first (draws : nat -> R) (t : btype) (l : layout)
    (attempts : nat) (s : rng) :
  (1 <= attempts)%nat ->
  check_partial_constraints (l ++ [fst (random_building draws t s)]) = true ->
  try_place draws t l attempts s
  = (Some (fst (random_building draws t s)), S (S s)).
Proof.
  intros Hm Hc. destruct attempts as [| n]; [lia |]. cbn [try_place].
  pose proof (random_building_rng draws t s) as Hs.
  destruct (random_building draws t s) as [cand s1]. cbn [fst snd] in *.
  now rewrite Hc, Hs.
Qed.

Lemma place_all_first (draws : nat -> R) (items : list btype)
    (max_attempts : nat) :
  (1 <= max_attempts)%nat ->
  forall (l : layout) (s : rng),
    check_partial_constraints (l ++ first_candidates draws items s) = true ->
    place_all draws items l max_attempts s
    = (Some (l ++ first_candidates draws items s),
       (s + 2 * length items)%nat).
Proof.
  intros Hm. induction items as [| t items IH]; intros l s Hc.
  - cbn. rewrite app_nil_r. f_equal. lia.
  - cbn [first_candidates place_all length] in *.
    set (c := fst (random_building draws t s)) in *.
    assert (Hassoc : l ++ c :: first_candidates draws items (S (S s))
                     = (l ++ [c]) ++ first_candidates draws items (S (S s)))
      by (now rewrite <- app_assoc).
    rewrite Hassoc in *.
    rewrite (try_place_first draws t l max_attempts s Hm)
      by (fold c; eapply check_app_prefix; exact Hc).
    fold c. rewrite (IH _ _ Hc). f_equal. lia.
Qed.

(** X20.  If the candidates drawn first for the items (two draws each, from
    the cursor on) form a feasible layout that satisfies the neighbour rule,
    and at least one attempt is allowed, then [generate_layout] returns
    exactly these candidates and has made two draws for each. *)
Theorem generate_layout_first_try (draws : nat -> R)
    (num_a num_b max_attempts : Z) (s : rng) :
  (1 <= max_attempts)%Z ->
  check_partial_constraints
    (first_candidates draws (work_list num_a num_b) s) = true ->
  neighbor_check (first_candidates draws (work_list num_a num_b) s) = true ->
  generate_layout draws num_a num_b max_attempts s
  = (Some (first_candidates draws (work_list num_a num_b) s),
     (s + 2 * (Z.to_nat num_a + Z.to_nat num_b))%nat).
Proof.
  intros Hm Hc Hn. unfold generate_layout.
  rewrite (place_all_first draws (work_list num_a num_b)
             (Z.to_nat max_attempts)) by (try lia; exact Hc).
  cbn [app]. rewrite Hn. f_equal. unfold work_list.
  now rewrite length_app, !repeat_length.
Qed.

(** A gap of at least [MIN_BUILDING_DISTANCE] along one axis. *)
Ltac far_apart :=
  match goal with
  | |- _ <= rectangle_distance (b_rect ?b) (b_rect ?c) =>
      let Hg := fresh "Hg" in
      pose proof (rectangle_distance_gaps b c) as Hg;
      set (d := rectangle_distance b c) in *;
      cbn in Hg; by_constants
  end.

Lemma row_candidates :
  first_candidates row_draws (work_list 2 3) 0%nat
  = [row_a1; row_a2; row_b1; row_b2; top_b3].
Proof.
  unfold work_list. change (Z.to_nat 2) with 2%nat.
  change (Z.to_nat 3) with 3%nat.
  cbn [repeat app first_candidates].
  unfold random_building, uniform, row_draws,
    row_a1, row_a2, row_b1, row_b2, top_b3.
  cbn [btype_eqb TOWER_A_SIZE TOWER_B_SIZE fst].
  unfold BOUNDARY_BUFFER, SITE_WIDTH, SITE_HEIGHT.
  repeat (f_equal; try lra).
Qed.

Lemma row_layout_feasible :
  check_partial_constraints [row_a1; row_a2; row_b1; row_b2; top_b3] = true.
Proof.
  change [row_a1; row_a2; row_b1; row_b2; top_b3]
    with ([row_a1; row_a2; row_b1; row_b2] ++ [top_b3]).
  apply check_snoc_iff. split; [| split].
  - change [row_a1; row_a2; row_b1; row_b2]
      with ([row_a1; row_a2; row_b1] ++ [row_b2]).
    apply check_snoc_iff. split; [| split].
    + change [row_a1; row_a2; row_b1] with ([row_a1; row_a2] ++ [row_b1]).
      apply check_snoc_iff. split; [| split].
      * apply check_pair_true_iff. split; [| split].
        -- apply rectangles_overlap_false_iff. cbn. by_constants.
        -- apply rectangles_overlap_false_iff. cbn. by_constants.
        -- far_apart.
      * apply rectangles_overlap_false_iff. cbn. by_constants.
      * intros b [<- | [<- | []]]; far_apart.
    + apply rectangles_overlap_false_iff. cbn. by_constants.
    + intros b [<- | [<- | [<- | []]]]; far_apart.
  - apply rectangles_overlap_false_iff. cbn. by_constants.
  - intros b [<- | [<- | [<- | [<- | []]]]]; far_apart.
Qed.

Lemma row_layout_neighbors :
  neighbor_check [row_a1; row_a2; row_b1; row_b2; top_b3] = true.
Proof.
  apply neighbor_check_true_iff.
  intros a [<- | [<- | [<- | [<- | [<- | []]]]]] Ht; try discriminate;
    exists row_b1; (split; [simpl; auto |]); (split; [reflexivity |]);
    rewrite rectangle_distance_x_gap; cbn; by_constants.
Qed.

Lemma generate_layout_first_try_witness :
  (1 <= 2500)%Z /\
  check_partial_constraints
    (first_candidates row_draws (work_list 2 3) 0%nat) = true /\
  neighbor_check (first_candidates row_draws (work_list 2 3) 0%nat) = true /\
  generate_layout row_draws 2 3 2500 0%nat
  = (Some [row_a1; row_a2; row_b1; row_b2; top_b3], 10%nat).
Proof.
  assert (H1 : (1 <= 2500)%Z) by lia.
  assert (H2 : check_partial_constraints
                 (first_candidates row_draws (work_list 2 3) 0%nat) = true)
    by (rewrite row_candidates; exact row_layout_feasible).
  assert (H3 : neighbor_check
                 (first_candidates row_draws (work_list 2 3) 0%nat) = true)
    by (rewrite row_candidates; exact row_layout_neighbors).
  split; [exact H1 |]. split; [exact H2 |]. split; [exact H3 |].
  rewrite <- row_candidates.
  exact (generate_layout_first_try row_draws 2%Z 3%Z 2500%Z 0%nat H1 H2 H3).
Defined.
